(** * morphmap: the Texas score-field generator

    A shallow embedding of [frontend/src/data/generateTexasData.js] and the
    properties its specification states about it.

    Number model.  A JavaScript number is taken as an extended real: a finite
    real, one of the two infinities, or NaN.  Arithmetic on finite values is
    exact real arithmetic; the special values follow the IEEE-754 rules that
    JavaScript uses (0/0 and Infinity - Infinity are NaN, x/0 is an
    infinity, NaN is absorbing, [Math.max] and [Math.min] return NaN as soon
    as one argument is NaN).  Rounding, overflow, underflow and the sign of
    zero are outside the model.

    The linear-congruential register of [seededRandom] only ever holds
    integers, so it is modelled in [Z] with the 32-bit conversions of the
    bitwise operators written out.  The sum [s * 1664525 + 1013904223] is
    formed exactly; the double-precision sum of the source is exact as long
    as it stays below 2^53, which holds for every register in the signed
    32-bit range, hence for the seeds 42 and 99 of the source and after any
    first call.  Statements about an arbitrary seed carry that range as a
    hypothesis wherever the value of the first sum matters.

    The h3-js library is an external collaborator: it is a record of two
    functions handed to every field builder.  [Math.max(...xs)] and
    [Math.min(...xs)] are total here: the RangeError that an engine raises
    when a spread call has too many arguments (tilings of several hundred
    thousand cells) is not modelled: where a statement below says that the
    surplus or the combined builder returns, it is about tilings within
    that limit. *)

From Stdlib Require Import String Reals Lra Lia ZArith Bool List.
Import ListNotations.

Set Implicit Arguments.

(* ================================================================= *)
(** ** JavaScript numbers *)

Inductive num : Type :=
| NaN : num
| Inf (negative : bool) : num
| Fin (x : R) : num.

Arguments Fin x%_R.

Definition PosInf : num := Inf false.
Definition NegInf : num := Inf true.

Definition Rneg (x : R) : bool := if Rlt_dec x 0 then true else false.
Definition Rzero (x : R) : bool := if Req_dec_T x 0 then true else false.

Definition neg (a : num) : num :=
  match a with
  | NaN => NaN
  | Inf s => Inf (negb s)
  | Fin x => Fin (- x)
  end.

Definition add (a b : num) : num :=
  match a, b with
  | NaN, _ | _, NaN => NaN
  | Inf s, Inf t => if Bool.eqb s t then Inf s else NaN
  | Inf s, Fin _ | Fin _, Inf s => Inf s
  | Fin x, Fin y => Fin (x + y)
  end.

Definition sub (a b : num) : num := add a (neg b).

Definition mul (a b : num) : num :=
  match a, b with
  | NaN, _ | _, NaN => NaN
  | Inf s, Inf t => Inf (xorb s t)
  | Inf s, Fin x | Fin x, Inf s =>
      if Rzero x then NaN else Inf (xorb s (Rneg x))
  | Fin x, Fin y => Fin (x * y)
  end.

Definition div (a b : num) : num :=
  match a, b with
  | NaN, _ | _, NaN => NaN
  | Inf _, Inf _ => NaN
  | Inf s, Fin y => Inf (xorb s (Rneg y))
  | Fin _, Inf _ => Fin 0
  | Fin x, Fin y =>
      if Rzero y
      then (if Rzero x then NaN else Inf (Rneg x))
      else Fin (x / y)
  end.

Declare Scope js_scope.
Delimit Scope js_scope with js.
Bind Scope js_scope with num.
Notation "a + b" := (add a b) : js_scope.
Notation "a - b" := (sub a b) : js_scope.
Notation "a * b" := (mul a b) : js_scope.
Notation "a / b" := (div a b) : js_scope.
Notation "- a" := (neg a) : js_scope.

(** The [Math] object: the four functions the generator calls. *)
Module Math.

Definition exp (a : num) : num :=
  match a with
  | NaN => NaN
  | Inf false => Inf false
  | Inf true => Fin 0
  | Fin x => Fin (Rtrigo_def.exp x)
  end.

Definition max (a b : num) : num :=
  match a, b with
  | NaN, _ | _, NaN => NaN
  | Inf false, _ | _, Inf false => Inf false
  | Inf true, c | c, Inf true => c
  | Fin x, Fin y => Fin (Rmax x y)
  end.

Definition min (a b : num) : num :=
  match a, b with
  | NaN, _ | _, NaN => NaN
  | Inf true, _ | _, Inf true => Inf true
  | Inf false, c | c, Inf false => c
  | Fin x, Fin y => Fin (Rmin x y)
  end.

(** [Math.max(...xs)] and [Math.min(...xs)]: the spread call folds the
    arguments from the identity of the operation.  The engine's limit on
    the number of arguments is not modelled. *)
Definition max_of (xs : list num) : num := fold_left max xs NegInf.
Definition min_of (xs : list num) : num := fold_left min xs PosInf.

(** [Math.round]: the nearest integer, halves towards +Infinity. *)
Definition round (a : num) : num :=
  match a with
  | Fin x => Fin (IZR (Int_part (x + / 2)))
  | other => other
  end.

End Math.

(* ================================================================= *)
(** ** 32-bit integer conversions of the bitwise operators *)

Definition ToUint32 (z : Z) : Z := (z mod 2 ^ 32)%Z.

Definition ToInt32 (z : Z) : Z :=
  let m := (z mod 2 ^ 32)%Z in
  if (2 ^ 31 <=? m)%Z then (m - 2 ^ 32)%Z else m.

(** [a & b] *)
Definition bitand (a b : Z) : Z := ToInt32 (Z.land (ToInt32 a) (ToInt32 b)).

(** [a >>> b] *)
Definition ushr (a b : Z) : Z :=
  Z.shiftr (ToUint32 a) (Z.land (ToUint32 b) 31).

(* ================================================================= *)
(** ** seededRandom *)

(** The closure returned by [seededRandom] owns one mutable register [s]. *)
Record Rng : Type := mkRng { s : Z }.

Definition seededRandom (seed : Z) : Rng := mkRng seed.

(** One call of the closure: the value returned and the closure's new state.
    The sum is exact here; in the source it is exact for a register in the
    signed 32-bit range. *)
Definition call (rand : Rng) : num * Rng :=
  let s' := bitand (rand.(s) * 1664525 + 1013904223) 4294967295 in
  (Fin (IZR (ushr s' 0) / 4294967295), mkRng s').

(* ================================================================= *)
(** ** Outcomes: a call returns a value or throws *)

Inductive JsError : Type :=
| TypeError : JsError
| H3Error (code : Z) : JsError.

Inductive outcome (A : Type) : Type :=
| Returned (a : A) : outcome A
| Thrown (e : JsError) : outcome A.

Arguments Returned {A} a.
Arguments Thrown {A} e.

Definition bind {A B : Type} (m : outcome A) (k : A -> outcome B) : outcome B :=
  match m with
  | Returned a => k a
  | Thrown e => Thrown e
  end.

Notation "x <- m ;; k" := (bind m (fun x => k))
  (at level 61, m at next level, right associativity).

(** [xs.map((x, i) => f(x, i))] where the callback may throw. *)
Fixpoint mapi_outcome {A B : Type} (f : A -> nat -> outcome B)
         (xs : list A) (i : nat) : outcome (list B) :=
  match xs with
  | [] => Returned []
  | x :: rest =>
      y <- f x i ;;
      ys <- mapi_outcome f rest (S i) ;;
      Returned (y :: ys)
  end.

(** [xs.map((x, i) => f(x, i))] where the callback calls the closure [rand]:
    the register is threaded through the calls in array order. *)
Fixpoint mapi_rand {A B : Type} (f : A -> nat -> Rng -> B * Rng)
         (xs : list A) (i : nat) (rand : Rng) : list B * Rng :=
  match xs with
  | [] => ([], rand)
  | x :: rest =>
      let (y, rand1) := f x i rand in
      let (ys, rand2) := mapi_rand f rest (S i) rand1 in
      (y :: ys, rand2)
  end.

(* ================================================================= *)
(** ** The h3-js collaborator *)

Definition LatLng : Type := (num * num)%type.

Record H3 : Type := mkH3 {
  polygonToCells : list LatLng -> Z -> outcome (list string);
  cellToLatLng : string -> LatLng
}.

(* ================================================================= *)
(** ** Configuration tables *)

Definition TEXAS_POLYGON : list LatLng :=
  [ (Fin 31.901, Fin (-106.645646));
    (Fin 31.784, Fin (-106.528879));
    (Fin 31.562, Fin (-106.277244));
    (Fin 30.84,  Fin (-105.4));
    (Fin 29.672, Fin (-104.977665));
    (Fin 29.45,  Fin (-104.561));
    (Fin 28.98,  Fin (-103.941));
    (Fin 28.97,  Fin (-103.118));
    (Fin 29.76,  Fin (-102.48));
    (Fin 29.77,  Fin (-101.66));
    (Fin 28.19,  Fin (-100.96));
    (Fin 28.17,  Fin (-100.11));
    (Fin 27.66,  Fin (-99.93));
    (Fin 27.02,  Fin (-99.44));
    (Fin 26.38,  Fin (-99.45));
    (Fin 26.43,  Fin (-99.1));
    (Fin 26.07,  Fin (-98.08));
    (Fin 25.87,  Fin (-97.36));
    (Fin 25.97,  Fin (-97.14));
    (Fin 26.06,  Fin (-97.02));
    (Fin 28.3,   Fin (-96.7));
    (Fin 28.6,   Fin (-96.8));
    (Fin 28.97,  Fin (-95.96));
    (Fin 29.08,  Fin (-94.74));
    (Fin 29.72,  Fin (-93.84));
    (Fin 30.05,  Fin (-93.93));
    (Fin 30.13,  Fin (-93.7));
    (Fin 31.0,   Fin (-93.7));
    (Fin 31.56,  Fin (-93.52));
    (Fin 33.0,   Fin (-93.53));
    (Fin 33.552, Fin (-94.043));
    (Fin 33.638, Fin (-94.484));
    (Fin 33.937, Fin (-95.154));
    (Fin 33.778, Fin (-96.0));
    (Fin 33.985, Fin (-96.66));
    (Fin 33.853, Fin (-97.46));
    (Fin 34.0,   Fin (-98.0));
    (Fin 34.21,  Fin (-98.95));
    (Fin 34.41,  Fin (-99.57));
    (Fin 34.56,  Fin (-100.0));
    (Fin 36.5,   Fin (-100.0));
    (Fin 36.5,   Fin (-103.0));
    (Fin 32.0,   Fin (-103.0));
    (Fin 31.901, Fin (-106.645646)) ].

Record Source : Type := mkSource {
  lat : num;
  lng : num;
  weight : num;
  radLat : num;
  radLng : num
}.

Definition src (la lo w rla rlo : R) : Source :=
  mkSource (Fin la) (Fin lo) (Fin w) (Fin rla) (Fin rlo).

Definition SUPPLY_SOURCES : list Source :=
  [ (* wind *)
    src 36.1   (-101.5)   0.98 1.4  2.2;
    src 32.264 (-100.344) 0.95 2.5  1.2;
    src 32.25  (-101.5)   0.75 1.8  1.0;
    src 26.5   (-97.5)    0.75 0.8  1.4;
    src 28.1   (-97.4)    0.55 0.7  1.1;
    (* nuclear *)
    src 32.298 (-97.786)  1.0  0.45 0.45;
    src 28.795 (-96.048)  1.0  0.45 0.45;
    (* natural gas *)
    src 31.8   (-103.2)   0.85 1.5  1.5;
    src 31.9   (-102.1)   0.72 1.2  1.2;
    src 35.22  (-101.8)   0.88 1.0  1.0;
    (* coal *)
    src 32.261 (-94.565)  0.88 0.6  0.6;
    src 32.1   (-94.5)    0.72 1.8  0.8;
    (* utility-scale solar *)
    src 32.314 (-102.51)  0.60 0.9  0.9;
    src 31.05  (-103.7)   0.48 0.8  0.8;
    src 31.5   (-103.0)   0.65 1.8  1.4 ].

Definition DEMAND_SINKS : list Source :=
  [ src 29.749 (-95.358)  (-1.0)  1.4  1.4;   (* Houston *)
    src 32.779 (-96.809)  (-0.95) 1.1  1.1;   (* Dallas *)
    src 32.725 (-97.321)  (-0.80) 0.9  0.9;   (* Fort Worth *)
    src 29.424 (-98.491)  (-0.92) 1.1  1.1;   (* San Antonio *)
    src 30.267 (-97.743)  (-0.85) 0.9  0.9;   (* Austin *)
    src 31.772 (-106.461) (-0.65) 0.7  0.7;   (* El Paso *)
    src 27.801 (-97.396)  (-0.50) 0.6  0.6;   (* Corpus Christi *)
    src 31.923 (-102.222) (-0.52) 0.6  0.6;   (* Midland/Odessa *)
    src 33.577 (-101.855) (-0.48) 0.55 0.55;  (* Lubbock *)
    src 35.222 (-101.831) (-0.48) 0.55 0.55;  (* Amarillo *)
    src 30.068 (-94.130)  (-0.40) 0.6  0.6;   (* Beaumont/Port Arthur *)
    src 31.549 (-97.147)  (-0.35) 0.5  0.5;   (* Waco *)
    src 32.735 (-97.108)  (-0.35) 0.5  0.5 ]. (* Arlington *)

Definition LAT_MIN : num := Fin 25.8.
Definition LAT_MAX : num := Fin 36.5.
Definition LNG_MIN : num := Fin (-106.6).
Definition LNG_MAX : num := Fin (-93.5).

(* ================================================================= *)
(** ** anisotropicGaussian *)

Definition anisotropicGaussian (cellLat cellLng : num) (source : Source) : num :=
  let dlat := (cellLat - source.(lat))%js in
  let dlng := (cellLng - source.(lng))%js in
  (source.(weight) *
   Math.exp
     (- ((dlat * dlat) / (Fin 2 * source.(radLat) * source.(radLat)) +
         (dlng * dlng) / (Fin 2 * source.(radLng) * source.(radLng)))))%js.

(* ================================================================= *)
(** ** Emitted records *)

Record TemperatureCell : Type := mkTemperatureCell {
  t_h3Index : string;
  t_score : num;
  t_tempF : num
}.

Record SurplusCell : Type := mkSurplusCell {
  s_h3Index : string;
  s_score : num;
  s_surplusMwh : num
}.

Record CombinedCell : Type := mkCombinedCell {
  c_h3Index : string;
  c_score : num;
  c_surplusMwh : num;
  c_tempF : num
}.

(** A default parameter value: [f(resolution = 5)]. *)
Definition default_arg {A : Type} (d : A) (arg : option A) : A :=
  match arg with
  | Some a => a
  | None => d
  end.

(** [xs[i]] read as a number operand: an index outside the array gives
    [undefined], which arithmetic turns into NaN. *)
Definition num_at (xs : list num) (i : nat) : num := nth i xs NaN.

(** [xs[i].field]: reading a property of [undefined] throws a TypeError. *)
Definition item_at {A : Type} (xs : list A) (i : nat) : outcome A :=
  match nth_error xs i with
  | Some a => Returned a
  | None => Thrown TypeError
  end.

(* ================================================================= *)
(** ** generateTexasTemperatureData *)

Definition temperatureCell (h3 : H3) (h3Index : string) (rand : Rng)
  : TemperatureCell * Rng :=
  let '(lat, lng) := h3.(cellToLatLng) h3Index in
  let latNorm := ((lat - LAT_MIN) / (LAT_MAX - LAT_MIN))%js in
  let lngNorm := ((lng - LNG_MIN) / (LNG_MAX - LNG_MIN))%js in
  let base := (Fin 0.65 * (Fin 1 - latNorm) + Fin 0.20 * (Fin 1 - lngNorm))%js in
  let (r, rand) := call rand in
  let noise := ((r - Fin 0.5) * Fin 0.12)%js in
  let score := Math.max (Fin 0) (Math.min (Fin 1) (base + noise)%js) in
  let tempF := Math.round (Fin 65 + score * Fin 50)%js in
  (mkTemperatureCell h3Index score tempF, rand).

Definition generateTexasTemperatureData (h3 : H3) (resolution : option Z)
  : outcome (list TemperatureCell) :=
  let resolution := default_arg 5%Z resolution in
  cells <- h3.(polygonToCells) TEXAS_POLYGON resolution ;;
  let rand := seededRandom 99 in
  Returned (fst (mapi_rand (fun h3Index _ rand => temperatureCell h3 h3Index rand)
                           cells 0 rand)).

(* ================================================================= *)
(** ** generateTexasHexData *)

(** First pass: the raw score of one cell. *)
Definition rawScore (h3 : H3) (h3Index : string) : num :=
  let '(lat, lng) := h3.(cellToLatLng) h3Index in
  let score := Fin 0 in
  let score :=
    fold_left (fun score src => (score + anisotropicGaussian lat lng src)%js)
              SUPPLY_SOURCES score in
  let score :=
    fold_left (fun score sink => (score + anisotropicGaussian lat lng sink)%js)
              DEMAND_SINKS score in
  score.

(** Second pass: the record of cell [i]. *)
Definition surplusCell (rawScores : list num) (minRaw range : num)
           (h3Index : string) (i : nat) (rand : Rng) : SurplusCell * Rng :=
  let (r, rand) := call rand in
  let noise := ((r - Fin 0.5) * Fin 0.06)%js in
  let score :=
    Math.max (Fin 0)
             (Math.min (Fin 1) ((num_at rawScores i - minRaw) / range + noise)%js) in
  let surplusMwh := Math.round (score * Fin 8000)%js in
  (mkSurplusCell h3Index score surplusMwh, rand).

Definition generateTexasHexData (h3 : H3) (resolution : option Z)
  : outcome (list SurplusCell) :=
  let resolution := default_arg 5%Z resolution in
  cells <- h3.(polygonToCells) TEXAS_POLYGON resolution ;;
  let rand := seededRandom 42 in
  let rawScores := map (rawScore h3) cells in
  let minRaw := Math.min_of rawScores in
  let maxRaw := Math.max_of rawScores in
  let range := (maxRaw - minRaw)%js in
  let data := fst (mapi_rand (surplusCell rawScores minRaw range) cells 0 rand) in
  Returned data.

(* ================================================================= *)
(** ** generateTexasCombinedData *)

Definition generateTexasCombinedData (h3 : H3) (resolution : option Z)
  : outcome (list CombinedCell) :=
  let resolution := default_arg 5%Z resolution in
  surplus <- generateTexasHexData h3 (Some resolution) ;;
  temp <- generateTexasTemperatureData h3 (Some resolution) ;;
  raw <- mapi_outcome
           (fun s i => t <- item_at temp i ;;
                       Returned (s.(s_score) * (Fin 1 - t.(t_score)))%js)
           surplus 0 ;;
  let minRaw := Math.min_of raw in
  let maxRaw := Math.max_of raw in
  let range := (maxRaw - minRaw)%js in
  mapi_outcome
    (fun s i => t <- item_at temp i ;;
                Returned (mkCombinedCell s.(s_h3Index)
                                         ((num_at raw i - minRaw) / range)%js
                                         s.(s_surplusMwh)
                                         t.(t_tempF)))
    surplus 0.

(* ================================================================= *)
(** ** Vocabulary of the specification *)

(** [clamp01] of the specification's normalizer. *)
Definition clamp01 (a : num) : num := Math.max (Fin 0) (Math.min (Fin 1) a).

(** A score inside the closed unit interval. *)
Definition in_unit (a : num) : Prop := exists x : R, a = Fin x /\ (0 <= x <= 1)%R.

Definition finite (a : num) : Prop := exists x : R, a = Fin x.

(** What a clamped score can be on any input. *)
Definition unit_or_NaN (a : num) : Prop := a = NaN \/ in_unit a.

(** A range that is a number other than zero. *)
Definition nonzero_range (range : num) : Prop :=
  exists d : R, range = Fin d /\ d <> 0%R.

(** The register after [n] calls of the closure, and the value that call
    number [n] (counted from 0) returns. *)
Fixpoint rng_after (n : nat) (rand : Rng) : Rng :=
  match n with
  | O => rand
  | S k => rng_after k (snd (call rand))
  end.

Definition rand_value (rand : Rng) (n : nat) : num := fst (call (rng_after n rand)).

(** [xs.map((x, i) => f(i, x))] for a callback without effects. *)
Fixpoint mapi {A B : Type} (f : nat -> A -> B) (xs : list A) (i : nat) : list B :=
  match xs with
  | [] => []
  | x :: rest => f i x :: mapi f rest (S i)
  end.

(** The normalizer as the specification words it: the extrema of the whole
    raw field first, then one generator value per cell, in order. *)
Definition normalize (rawField : list num) (seed : Z) (jitterAmplitude : num)
  : list num :=
  let mn := Math.min_of rawField in
  let mx := Math.max_of rawField in
  let range := (mx - mn)%js in
  mapi (fun i raw =>
          let r := rand_value (seededRandom seed) i in
          clamp01 ((raw - mn) / range + (r - Fin 0.5) * jitterAmplitude)%js)
       rawField 0.

(** The combiner as the specification words it: the elementwise product
    followed by a min-max pass without jitter. *)
Definition combineRaw (fieldA fieldB : list num) : list num :=
  map (fun ab => (fst ab * (Fin 1 - snd ab))%js) (List.combine fieldA fieldB).

Definition minMax (raw : list num) : list num :=
  let mn := Math.min_of raw in
  let range := (Math.max_of raw - mn)%js in
  map (fun x => ((x - mn) / range)%js) raw.

Definition combine (fieldA fieldB : list num) : list num :=
  minMax (combineRaw fieldA fieldB).

(** The Gaussian contribution of one source in real arithmetic. *)
Definition gaussian (pLat pLng sLat sLng w sigLat sigLng : R) : R :=
  let dLat := (pLat - sLat)%R in
  let dLng := (pLng - sLng)%R in
  (w * exp (- (dLat ^ 2 / (2 * sigLat ^ 2) + dLng ^ 2 / (2 * sigLng ^ 2))))%R.

(** The influence model of the specification: contributions summed in list
    order, starting from 0. *)
Definition evaluate (pLat pLng : num) (sources : list Source) : num :=
  fold_left (fun acc source => (acc + anisotropicGaussian pLat pLng source)%js)
            sources (Fin 0).

(** The sum of the real contributions of a list of well-formed sources. *)
Fixpoint gaussian_sum (pLat pLng : R) (sources : list (R * R * R * R * R)) : R :=
  match sources with
  | [] => 0
  | (la, lo, w, rla, rlo) :: rest =>
      (gaussian pLat pLng la lo w rla rlo + gaussian_sum pLat pLng rest)%R
  end.

Definition src_of (t : R * R * R * R * R) : Source :=
  let '(la, lo, w, rla, rlo) := t in src la lo w rla rlo.

Definition radii_nonzero (t : R * R * R * R * R) : Prop :=
  let '(_, _, _, rla, rlo) := t in rla <> 0%R /\ rlo <> 0%R.

(** The two tables as tuples of reals. *)
Definition supply_table : list (R * R * R * R * R) :=
  [ (36.1, -101.5, 0.98, 1.4, 2.2);
    (32.264, -100.344, 0.95, 2.5, 1.2);
    (32.25, -101.5, 0.75, 1.8, 1.0);
    (26.5, -97.5, 0.75, 0.8, 1.4);
    (28.1, -97.4, 0.55, 0.7, 1.1);
    (32.298, -97.786, 1.0, 0.45, 0.45);
    (28.795, -96.048, 1.0, 0.45, 0.45);
    (31.8, -103.2, 0.85, 1.5, 1.5);
    (31.9, -102.1, 0.72, 1.2, 1.2);
    (35.22, -101.8, 0.88, 1.0, 1.0);
    (32.261, -94.565, 0.88, 0.6, 0.6);
    (32.1, -94.5, 0.72, 1.8, 0.8);
    (32.314, -102.51, 0.60, 0.9, 0.9);
    (31.05, -103.7, 0.48, 0.8, 0.8);
    (31.5, -103.0, 0.65, 1.8, 1.4) ]%R.

Definition sink_table : list (R * R * R * R * R) :=
  [ (29.749, -95.358, -1.0, 1.4, 1.4);
    (32.779, -96.809, -0.95, 1.1, 1.1);
    (32.725, -97.321, -0.80, 0.9, 0.9);
    (29.424, -98.491, -0.92, 1.1, 1.1);
    (30.267, -97.743, -0.85, 0.9, 0.9);
    (31.772, -106.461, -0.65, 0.7, 0.7);
    (27.801, -97.396, -0.50, 0.6, 0.6);
    (31.923, -102.222, -0.52, 0.6, 0.6);
    (33.577, -101.855, -0.48, 0.55, 0.55);
    (35.222, -101.831, -0.48, 0.55, 0.55);
    (30.068, -94.130, -0.40, 0.6, 0.6);
    (31.549, -97.147, -0.35, 0.5, 0.5);
    (32.735, -97.108, -0.35, 0.5, 0.5) ]%R.


(* ================================================================= *)
(** ** Closed forms of the three fields

    Each builder is shown below to return the field given here, in which
    the threaded generator is replaced by the indexed stream of its values. *)

Definition jitter (r amplitude : num) : num := ((r - Fin 0.5) * amplitude)%js.

Definition hexScore (mn range raw r : num) : num :=
  clamp01 ((raw - mn) / range + jitter r (Fin 0.06))%js.

Definition hexField (h3 : H3) (cells : list string) : list SurplusCell :=
  let raw := map (rawScore h3) cells in
  let mn := Math.min_of raw in
  let range := (Math.max_of raw - mn)%js in
  mapi (fun j c =>
          let sc := hexScore mn range (rawScore h3 c)
                             (rand_value (seededRandom 42) j) in
          mkSurplusCell c sc (Math.round (sc * Fin 8000)%js))
       cells 0.

Definition tempBase (lat lng : num) : num :=
  (Fin 0.65 * (Fin 1 - (lat - LAT_MIN) / (LAT_MAX - LAT_MIN)) +
   Fin 0.20 * (Fin 1 - (lng - LNG_MIN) / (LNG_MAX - LNG_MIN)))%js.

Definition tempScore (lat lng r : num) : num :=
  clamp01 (tempBase lat lng + jitter r (Fin 0.12))%js.

Definition tempField (h3 : H3) (cells : list string) : list TemperatureCell :=
  mapi (fun j c =>
          let sc := tempScore (fst (cellToLatLng h3 c)) (snd (cellToLatLng h3 c))
                              (rand_value (seededRandom 99) j) in
          mkTemperatureCell c sc (Math.round (Fin 65 + sc * Fin 50)%js))
       cells 0.

Definition combinedField (surplus : list SurplusCell) (temp : list TemperatureCell)
  : list CombinedCell :=
  let raw := combineRaw (map s_score surplus) (map t_score temp) in
  let mn := Math.min_of raw in
  let range := (Math.max_of raw - mn)%js in
  map (fun st : SurplusCell * TemperatureCell =>
         let (s0, t0) := st in
         mkCombinedCell (s_h3Index s0)
                        ((s_score s0 * (Fin 1 - t_score t0) - mn) / range)%js
                        (s_surplusMwh s0)
                        (t_tempF t0))
      (List.combine surplus temp).

(** The tiler's answer for a resolution. *)
Definition tiling (h3 : H3) (resolution : option Z) : outcome (list string) :=
  polygonToCells h3 TEXAS_POLYGON (default_arg 5%Z resolution).

(** All centroids of a tiling are finite coordinates. *)
Definition finite_centroids (h3 : H3) (cells : list string) : Prop :=
  Forall (fun c => finite (fst (cellToLatLng h3 c)) /\ finite (snd (cellToLatLng h3 c)))
         cells.

(** What a finite minimum or maximum says about the arguments. *)
Definition above (m : R) (a : num) : Prop :=
  a = PosInf \/ exists r : R, a = Fin r /\ (m <= r)%R.

Definition below (M : R) (a : num) : Prop :=
  a = NegInf \/ exists r : R, a = Fin r /\ (r <= M)%R.


(** The quantity the source calls [range]: the maximum minus the minimum. *)
Definition spread (raw : list num) : num := (Math.max_of raw - Math.min_of raw)%js.

(* ================================================================= *)
(** ** Sample tilers *)

(** A tiler whose region contains no cell centre (a degenerate boundary). *)
Definition h3_empty : H3 :=
  mkH3 (fun _ _ => Returned []) (fun _ => (Fin 0, Fin 0)).

(** A tiler that answers with a single cell. *)
Definition h3_single : H3 :=
  mkH3 (fun _ _ => Returned ["8148bffffffffff"%string])
       (fun _ => (Fin 31.0, Fin (-100.0))).

(** Two cells: one centred on Houston, one far to the north. *)
Definition h3_pair : H3 :=
  mkH3 (fun _ _ => Returned ["houston"%string; "north"%string])
       (fun c => if String.eqb c "houston" then (Fin 29.749, Fin (-95.358))
                 else (Fin 100, Fin (-95))).

(** Two cells: one centred on Houston, one far to the south. *)
Definition h3_pair_south : H3 :=
  mkH3 (fun _ _ => Returned ["houston"%string; "south"%string])
       (fun c => if String.eqb c "houston" then (Fin 29.749, Fin (-95.358))
                 else (Fin (-50), Fin (-95))).

(** Two cells on the Gulf coast: one centred on Houston, one on the South
    Texas Project plant. *)
Definition h3_coast : H3 :=
  mkH3 (fun _ _ => Returned ["houston"%string; "bay city"%string])
       (fun c => if String.eqb c "houston" then (Fin 29.749, Fin (-95.358))
                 else (Fin 28.795, Fin (-96.048))).

Definition coast_cells : list string := ["houston"%string; "bay city"%string].

(** The recurrence of the generator on its register. *)
Definition lcg (z : Z) : Z := ToInt32 (z * 1664525 + 1013904223).

Definition pair_cells : list string := ["houston"%string; "north"%string].
Definition south_cells : list string := ["houston"%string; "south"%string].

(* ================================================================= *)
(** ** EnergyMap.jsx: the colour ramps *)

(** A deck.gl colour: the array [[r, g, b, a]]. *)
Definition Color : Type := (num * num * num * num)%type.

Definition surplusColor (score : num) : Color :=
  let r := Math.round (score * Fin 20)%js in
  let g := Math.round (Fin 180 + score * Fin 75)%js in
  let b := Math.round (Fin 220 - score * Fin 80)%js in
  let a := Math.round (Fin 30 + score * Fin 200)%js in
  (r, g, b, a).

Definition temperatureColor (score : num) : Color :=
  let r := Fin 255 in
  let g := Math.round (Fin 180 - score * Fin 150)%js in
  let b := Math.round (Fin 20 - score * Fin 20)%js in
  let a := Math.round (Fin 25 + score * Fin 210)%js in
  (r, g, b, a).

Definition combinedColor (score : num) : Color :=
  let r := Math.round (Fin 80 + score * Fin 130)%js in
  let g := Math.round (Fin 0 + score * Fin 20)%js in
  let b := Math.round (Fin 180 + score * Fin 75)%js in
  let a := Math.round (Fin 25 + score * Fin 215)%js in
  (r, g, b, a).

Definition red (c : Color) : num := fst (fst (fst c)).
Definition green (c : Color) : num := snd (fst (fst c)).
Definition blue (c : Color) : num := snd (fst c).
Definition alpha (c : Color) : num := snd c.

(* ================================================================= *)
(** ** Vocabulary of the further properties *)

(** An integer-valued number between two integer bounds. *)
Definition int_between (lo hi : Z) (a : num) : Prop :=
  exists k : Z, a = Fin (IZR k) /\ (lo <= k <= hi)%Z.

(** A colour all of whose channels are integers from 0 to 255. *)
Definition rgba (c : Color) : Prop :=
  int_between 0 255 (red c) /\ int_between 0 255 (green c) /\
  int_between 0 255 (blue c) /\ int_between 0 255 (alpha c).

(** The recurrence of the generator read on unsigned 32-bit integers. *)
Definition ulcg (u : Z) : Z := ((u * 1664525 + 1013904223) mod 2 ^ 32)%Z.

(** The sums of the positive and of the negative weights of a table. *)
Fixpoint positive_weight (sources : list (R * R * R * R * R)) : R :=
  match sources with
  | [] => 0
  | (_, _, w, _, _) :: rest => (Rmax 0 w + positive_weight rest)%R
  end.

Fixpoint negative_weight (sources : list (R * R * R * R * R)) : R :=
  match sources with
  | [] => 0
  | (_, _, w, _, _) :: rest => (Rmin 0 w + negative_weight rest)%R
  end.


(* ================================================================= *)
(** ** The generator as a closure on the heap

    The same three builders with the mutable register of [seededRandom]
    kept where the source keeps it: each call of [seededRandom] creates a
    closure with a register of its own, and a call of the closure reads and
    overwrites that register.  The heap lists the registers of the closures
    created so far; a closure is named by its position. *)
Module Closures.

Definition Heap : Type := list Z.

(** [s = v] inside the closure [rand]. *)
Fixpoint store (rand : nat) (v : Z) (heap : Heap) : Heap :=
  match heap, rand with
  | [], _ => []
  | _ :: rest, O => v :: rest
  | x :: rest, S k => x :: store k v rest
  end.

Definition seededRandom (seed : Z) (heap : Heap) : nat * Heap :=
  (length heap, heap ++ [seed]).

Definition call (rand : nat) (heap : Heap) : num * Heap :=
  let s' := bitand (nth rand heap 0%Z * 1664525 + 1013904223) 4294967295 in
  (Fin (IZR (ushr s' 0) / 4294967295), store rand s' heap).

(** The register of [rand] after [n] calls of it. *)
Fixpoint call_n (rand : nat) (n : nat) (heap : Heap) : Heap :=
  match n with
  | O => heap
  | S k => call_n rand k (snd (call rand heap))
  end.

Fixpoint mapi_heap {A B : Type} (f : A -> nat -> Heap -> B * Heap)
         (xs : list A) (i : nat) (heap : Heap) : list B * Heap :=
  match xs with
  | [] => ([], heap)
  | x :: rest =>
      let (y, heap1) := f x i heap in
      let (ys, heap2) := mapi_heap f rest (S i) heap1 in
      (y :: ys, heap2)
  end.

Definition temperatureCell (h3 : H3) (rand : nat) (h3Index : string) (heap : Heap)
  : TemperatureCell * Heap :=
  let '(lat, lng) := h3.(cellToLatLng) h3Index in
  let latNorm := ((lat - LAT_MIN) / (LAT_MAX - LAT_MIN))%js in
  let lngNorm := ((lng - LNG_MIN) / (LNG_MAX - LNG_MIN))%js in
  let base := (Fin 0.65 * (Fin 1 - latNorm) + Fin 0.20 * (Fin 1 - lngNorm))%js in
  let (r, heap) := call rand heap in
  let noise := ((r - Fin 0.5) * Fin 0.12)%js in
  let score := Math.max (Fin 0) (Math.min (Fin 1) (base + noise)%js) in
  let tempF := Math.round (Fin 65 + score * Fin 50)%js in
  (mkTemperatureCell h3Index score tempF, heap).

Definition generateTexasTemperatureData (h3 : H3) (resolution : option Z)
           (heap : Heap) : outcome (list TemperatureCell) * Heap :=
  let resolution := default_arg 5%Z resolution in
  match h3.(polygonToCells) TEXAS_POLYGON resolution with
  | Thrown e => (Thrown e, heap)
  | Returned cells =>
      let (rand, heap) := seededRandom 99 heap in
      let (data, heap) :=
        mapi_heap (fun h3Index _ heap => temperatureCell h3 rand h3Index heap)
                  cells 0 heap in
      (Returned data, heap)
  end.

Definition surplusCell (rand : nat) (rawScores : list num) (minRaw range : num)
           (h3Index : string) (i : nat) (heap : Heap) : SurplusCell * Heap :=
  let (r, heap) := call rand heap in
  let noise := ((r - Fin 0.5) * Fin 0.06)%js in
  let score :=
    Math.max (Fin 0)
             (Math.min (Fin 1) ((num_at rawScores i - minRaw) / range + noise)%js) in
  let surplusMwh := Math.round (score * Fin 8000)%js in
  (mkSurplusCell h3Index score surplusMwh, heap).

Definition generateTexasHexData (h3 : H3) (resolution : option Z) (heap : Heap)
  : outcome (list SurplusCell) * Heap :=
  let resolution := default_arg 5%Z resolution in
  match h3.(polygonToCells) TEXAS_POLYGON resolution with
  | Thrown e => (Thrown e, heap)
  | Returned cells =>
      let (rand, heap) := seededRandom 42 heap in
      let rawScores := map (rawScore h3) cells in
      let minRaw := Math.min_of rawScores in
      let maxRaw := Math.max_of rawScores in
      let range := (maxRaw - minRaw)%js in
      let (data, heap) :=
        mapi_heap (surplusCell rand rawScores minRaw range) cells 0 heap in
      (Returned data, heap)
  end.

Definition generateTexasCombinedData (h3 : H3) (resolution : option Z) (heap : Heap)
  : outcome (list CombinedCell) * Heap :=
  let resolution := default_arg 5%Z resolution in
  match generateTexasHexData h3 (Some resolution) heap with
  | (Thrown e, heap) => (Thrown e, heap)
  | (Returned surplus, heap) =>
      match generateTexasTemperatureData h3 (Some resolution) heap with
      | (Thrown e, heap) => (Thrown e, heap)
      | (Returned temp, heap) =>
          (raw <- mapi_outcome
                    (fun s0 i => t <- item_at temp i ;;
                                 Returned (s0.(s_score) * (Fin 1 - t.(t_score)))%js)
                    surplus 0 ;;
           let minRaw := Math.min_of raw in
           let maxRaw := Math.max_of raw in
           let range := (maxRaw - minRaw)%js in
           mapi_outcome
             (fun s0 i => t <- item_at temp i ;;
                          Returned (mkCombinedCell s0.(s_h3Index)
                                                   ((num_at raw i - minRaw) / range)%js
                                                   s0.(s_surplusMwh)
                                                   t.(t_tempF)))
             surplus 0,
           heap)
      end
  end.

End Closures.
(* ================================================================= *)
(** ** Arithmetic on finite numbers *)

Lemma Rzero_true (x : R) : x = 0%R -> Rzero x = true.
Proof. intros ->. unfold Rzero. destruct (Req_dec_T 0 0); [reflexivity | contradiction]. Qed.

Lemma Rzero_false (x : R) : x <> 0%R -> Rzero x = false.
Proof. intros H. unfold Rzero. destruct (Req_dec_T x 0); [contradiction | reflexivity]. Qed.

Lemma div_Fin (x y : R) : y <> 0%R -> (Fin x / Fin y)%js = Fin (x / y).
Proof. intros H. simpl. now rewrite (Rzero_false H). Qed.

Lemma div_zero_zero : (Fin 0 / Fin 0)%js = NaN.
Proof. simpl. now rewrite (Rzero_true eq_refl). Qed.

Lemma sub_self (a : num) : (a - a)%js = NaN \/ (a - a)%js = Fin 0.
Proof.
  destruct a as [| [|] | x]; simpl; auto.
  right. f_equal. lra.
Qed.

(** A number minus itself, divided by itself minus itself, is NaN: the
    quotient is NaN/NaN or 0/0. *)
Lemma self_quotient_NaN (a : num) : ((a - a) / (a - a))%js = NaN.
Proof.
  destruct (sub_self a) as [-> | ->]; [reflexivity | apply div_zero_zero].
Qed.

(* ================================================================= *)
(** ** clamp01 *)

Lemma clamp01_Fin (x : R) : clamp01 (Fin x) = Fin (Rmax 0 (Rmin 1 x)).
Proof. reflexivity. Qed.

Lemma clamp01_Fin_in_unit (x : R) : in_unit (clamp01 (Fin x)).
Proof.
  rewrite clamp01_Fin. eexists; split; [reflexivity |].
  unfold Rmax, Rmin.
  destruct (Rle_dec 1 x); destruct (Rle_dec 0 _); lra.
Qed.

Lemma clamp01_cases (a : num) : clamp01 a = NaN \/ in_unit (clamp01 a).
Proof.
  destruct a as [| [|] | x].
  - left; reflexivity.
  - right. exists 0%R. split; [reflexivity | lra].
  - right. exists 1%R. split; [| lra].
    unfold clamp01; simpl. f_equal. unfold Rmax. destruct (Rle_dec 0 1); lra.
  - right. apply clamp01_Fin_in_unit.
Qed.

(* ================================================================= *)
(** ** The influence model on finite inputs *)

Lemma double_square_nonzero (r : R) : r <> 0%R -> (2 * r * r <> 0)%R.
Proof. intros H. nra. Qed.

Lemma anisotropicGaussian_Fin (pLat pLng la lo w rla rlo : R) :
  rla <> 0%R -> rlo <> 0%R ->
  anisotropicGaussian (Fin pLat) (Fin pLng) (src la lo w rla rlo)
  = Fin (gaussian pLat pLng la lo w rla rlo).
Proof.
  intros Hla Hlo.
  unfold anisotropicGaussian, src, gaussian.
  cbn [lat lng weight radLat radLng sub neg add mul].
  rewrite !div_Fin by (apply double_square_nonzero; assumption).
  cbn [add neg Math.exp mul].
  do 3 f_equal. field. split; assumption.
Qed.


Lemma fold_contributions_Fin (pLat pLng : R) (sources : list (R * R * R * R * R)) :
  Forall radii_nonzero sources ->
  forall acc : R,
    fold_left (fun a source => (a + anisotropicGaussian (Fin pLat) (Fin pLng) source)%js)
              (map src_of sources) (Fin acc)
    = Fin (acc + gaussian_sum pLat pLng sources).
Proof.
  induction 1 as [| t rest Ht _ IH]; intros acc; simpl.
  - f_equal. lra.
  - destruct t as [[[[la lo] w] rla] rlo]. destruct Ht as [Hla Hlo].
    cbn [src_of]. rewrite anisotropicGaussian_Fin by assumption.
    cbn [add]. rewrite IH. f_equal. lra.
Qed.

Lemma fold_left_app_evaluate (pLat pLng : num) (xs ys : list Source) :
  fold_left (fun a source => (a + anisotropicGaussian pLat pLng source)%js) ys
            (fold_left (fun a source => (a + anisotropicGaussian pLat pLng source)%js)
                       xs (Fin 0))
  = evaluate pLat pLng (xs ++ ys).
Proof. unfold evaluate. now rewrite fold_left_app. Qed.


Lemma SUPPLY_SOURCES_table : SUPPLY_SOURCES = map src_of supply_table.
Proof. reflexivity. Qed.

Lemma DEMAND_SINKS_table : DEMAND_SINKS = map src_of sink_table.
Proof. reflexivity. Qed.

Lemma all_radii_nonzero : Forall radii_nonzero (supply_table ++ sink_table).
Proof. repeat constructor; simpl; lra. Qed.

Lemma rawScore_evaluate (h3 : H3) (c : string) :
  rawScore h3 c
  = evaluate (fst (cellToLatLng h3 c)) (snd (cellToLatLng h3 c))
             (SUPPLY_SOURCES ++ DEMAND_SINKS).
Proof.
  unfold rawScore. destruct (cellToLatLng h3 c) as [la lo].
  cbn [fst snd]. apply fold_left_app_evaluate.
Qed.

Lemma rawScore_Fin (h3 : H3) (c : string) (la lo : R) :
  cellToLatLng h3 c = (Fin la, Fin lo) ->
  rawScore h3 c = Fin (gaussian_sum la lo (supply_table ++ sink_table)).
Proof.
  intros Hc. rewrite rawScore_evaluate, Hc. cbn [fst snd].
  unfold evaluate.
  rewrite SUPPLY_SOURCES_table, DEMAND_SINKS_table, <- map_app.
  rewrite (fold_contributions_Fin la lo all_radii_nonzero 0).
  f_equal. lra.
Qed.

(* ================================================================= *)
(** ** The seeded generator *)

Lemma ToInt32_range (z : Z) : (- 2 ^ 31 <= ToInt32 z < 2 ^ 31)%Z.
Proof.
  unfold ToInt32.
  pose proof (Z.mod_pos_bound z (2 ^ 32) ltac:(lia)) as Hm.
  destruct (Z.leb_spec (2 ^ 31) (z mod 2 ^ 32)); lia.
Qed.

Lemma ToInt32_small (z : Z) : (- 2 ^ 31 <= z < 2 ^ 31)%Z -> ToInt32 z = z.
Proof.
  intros Hz. unfold ToInt32.
  destruct (Z.lt_ge_cases z 0) as [Hneg | Hpos].
  - assert (z mod 2 ^ 32 = z + 2 ^ 32)%Z as ->.
    { symmetry. apply Z.mod_unique with (q := (-1)%Z); [left | ]; lia. }
    destruct (Z.leb_spec (2 ^ 31) (z + 2 ^ 32)); lia.
  - rewrite Z.mod_small by lia.
    destruct (Z.leb_spec (2 ^ 31) z); lia.
Qed.

(** [x & 0xffffffff] is the conversion of [x] to a signed 32-bit integer. *)
Lemma bitand_all_ones (x : Z) : bitand x 4294967295 = ToInt32 x.
Proof.
  unfold bitand.
  change (ToInt32 4294967295) with (-1)%Z.
  rewrite Z.land_m1_r. apply ToInt32_small, ToInt32_range.
Qed.

(** [x >>> 0] is the conversion of [x] to an unsigned 32-bit integer. *)
Lemma ushr_zero (x : Z) : ushr x 0 = ToUint32 x.
Proof. unfold ushr. change (Z.land (ToUint32 0) 31) with 0%Z. apply Z.shiftr_0_r. Qed.

Lemma call_eq (rand : Rng) :
  call rand
  = (Fin (IZR (ToUint32 (ToInt32 (s rand * 1664525 + 1013904223))) / 4294967295),
     mkRng (ToInt32 (s rand * 1664525 + 1013904223))).
Proof. unfold call. cbv zeta. now rewrite bitand_all_ones, ushr_zero. Qed.

(** The register stays a signed 32-bit integer, and the product formed from
    such a register is below 2^53 in magnitude: the double-precision
    arithmetic of the source is exact on it. *)
Lemma call_register_int32 (rand : Rng) :
  (- 2 ^ 31 <= s (snd (call rand)) < 2 ^ 31)%Z.
Proof. rewrite call_eq. cbn [snd s]. apply ToInt32_range. Qed.

Lemma call_product_exact (rand : Rng) :
  (- 2 ^ 31 <= s rand < 2 ^ 31)%Z ->
  (- 2 ^ 53 < s rand * 1664525 + 1013904223 < 2 ^ 53)%Z.
Proof. intros H. lia. Qed.

Lemma call_value_in_unit (rand : Rng) : in_unit (fst (call rand)).
Proof.
  rewrite call_eq. cbn [fst].
  set (u := ToUint32 _).
  assert (0 <= u <= 4294967295)%Z as [Hlo Hhi].
  { subst u. unfold ToUint32.
    pose proof (Z.mod_pos_bound (ToInt32 (s rand * 1664525 + 1013904223)) (2 ^ 32)
                                ltac:(lia)).
    lia. }
  apply IZR_le in Hlo, Hhi.
  eexists; split; [reflexivity |].
  lra.
Qed.

Lemma rand_value_in_unit (rand : Rng) (n : nat) : in_unit (rand_value rand n).
Proof. apply call_value_in_unit. Qed.

Lemma rng_after_S (n : nat) (rand : Rng) :
  rng_after n (snd (call rand)) = snd (call (rng_after n rand)).
Proof.
  revert rand. induction n as [| n IH]; intros rand; [reflexivity |].
  cbn [rng_after]. apply IH.
Qed.

(* ================================================================= *)
(** ** Indexed maps *)

Lemma mapi_length {A B : Type} (f : nat -> A -> B) (xs : list A) (i : nat) :
  length (mapi f xs i) = length xs.
Proof.
  revert i. induction xs as [| x xs IH]; intros i; simpl; [reflexivity |].
  now rewrite IH.
Qed.

Lemma nth_error_mapi {A B : Type} (f : nat -> A -> B) (xs : list A) (i k : nat) :
  nth_error (mapi f xs i) k = option_map (f (i + k)%nat) (nth_error xs k).
Proof.
  revert i k. induction xs as [| x xs IH]; intros i k.
  - destruct k; reflexivity.
  - destruct k as [| k]; cbn [mapi nth_error].
    + now rewrite Nat.add_0_r.
    + rewrite IH. now rewrite Nat.add_succ_comm.
Qed.

Lemma mapi_ext_from {A B : Type} (f g : nat -> A -> B) (xs : list A) (i : nat) :
  (forall j x, (i <= j)%nat -> f j x = g j x) ->
  mapi f xs i = mapi g xs i.
Proof.
  revert i. induction xs as [| x xs IH]; intros i H; [reflexivity |].
  cbn [mapi]. rewrite (H i x (le_n i)). f_equal.
  apply IH. intros j y Hj. apply H. lia.
Qed.

Lemma map_mapi {A B C : Type} (g : B -> C) (f : nat -> A -> B) (xs : list A) (i : nat) :
  map g (mapi f xs i) = mapi (fun j x => g (f j x)) xs i.
Proof.
  revert i. induction xs as [| x xs IH]; intros i; [reflexivity |].
  cbn [mapi map]. now rewrite IH.
Qed.

Lemma mapi_map {A B C : Type} (f : nat -> B -> C) (g : A -> B) (xs : list A) (i : nat) :
  mapi f (map g xs) i = mapi (fun j x => f j (g x)) xs i.
Proof.
  revert i. induction xs as [| x xs IH]; intros i; [reflexivity |].
  cbn [mapi map]. now rewrite IH.
Qed.

Lemma mapi_const_index {A B : Type} (f : A -> B) (xs : list A) (i : nat) :
  mapi (fun _ x => f x) xs i = map f xs.
Proof.
  revert i. induction xs as [| x xs IH]; intros i; [reflexivity |].
  cbn [mapi map]. now rewrite IH.
Qed.

(** A callback that calls the closure exactly once turns the threaded map
    into an indexed map over the successive values of the generator. *)
Lemma mapi_rand_one_call {A B : Type} (F : A -> nat -> Rng -> B * Rng)
      (h : A -> nat -> num -> B) :
  (forall x j rand, F x j rand = (h x j (fst (call rand)), snd (call rand))) ->
  forall (xs : list A) (i : nat) (rand : Rng),
    mapi_rand F xs i rand
    = (mapi (fun j x => h x j (rand_value rand (j - i))) xs i,
       rng_after (length xs) rand).
Proof.
  intros HF. induction xs as [| x xs IH]; intros i rand; [reflexivity |].
  cbn [mapi_rand mapi length rng_after].
  rewrite HF, IH. f_equal. f_equal.
  - now rewrite Nat.sub_diag.
  - apply mapi_ext_from. intros j y Hj.
    replace (j - i)%nat with (S (j - S i)) by lia.
    reflexivity.
Qed.

(* ================================================================= *)
(** ** The builders in closed form *)

Lemma nth_map_default {A B : Type} (f : A -> B) (xs : list A) (k : nat) (x : A) (d : B) :
  nth_error xs k = Some x -> nth k (map f xs) d = f x.
Proof.
  intros H. apply nth_error_nth. now rewrite nth_error_map, H.
Qed.

Lemma mapi_nth_map {A B C : Type} (f : A -> B) (F : nat -> B -> A -> C)
      (xs : list A) (d : B) :
  mapi (fun j x => F j (nth j (map f xs) d) x) xs 0
  = mapi (fun j x => F j (f x) x) xs 0.
Proof.
  apply nth_error_ext. intros k. rewrite !nth_error_mapi.
  destruct (nth_error xs k) as [x |] eqn:E; [| reflexivity].
  cbn [option_map Nat.add]. now rewrite (nth_map_default f xs k d E).
Qed.

Lemma surplusCell_one_call (raw : list num) (mn range : num)
      (c : string) (i : nat) (rand : Rng) :
  surplusCell raw mn range c i rand
  = (let sc := hexScore mn range (num_at raw i) (fst (call rand)) in
     mkSurplusCell c sc (Math.round (sc * Fin 8000)%js),
     snd (call rand)).
Proof. reflexivity. Qed.

Lemma temperatureCell_one_call (h3 : H3) (c : string) (rand : Rng) :
  temperatureCell h3 c rand
  = (let sc := tempScore (fst (cellToLatLng h3 c)) (snd (cellToLatLng h3 c))
                         (fst (call rand)) in
     mkTemperatureCell c sc (Math.round (Fin 65 + sc * Fin 50)%js),
     snd (call rand)).
Proof.
  unfold temperatureCell. destruct (cellToLatLng h3 c) as [la lo]. reflexivity.
Qed.

Lemma generateTexasHexData_closed (h3 : H3) (resolution : option Z) :
  generateTexasHexData h3 resolution
  = cells <- tiling h3 resolution ;; Returned (hexField h3 cells).
Proof.
  unfold generateTexasHexData, tiling. cbv zeta.
  destruct (polygonToCells h3 TEXAS_POLYGON (default_arg 5%Z resolution))
    as [cells | e]; [| reflexivity].
  cbn [bind]. f_equal.
  rewrite (mapi_rand_one_call
             (surplusCell (map (rawScore h3) cells) _ _)
             (fun c i r =>
                let sc := hexScore _ _ (num_at (map (rawScore h3) cells) i) r in
                mkSurplusCell c sc (Math.round (sc * Fin 8000)%js)))
    by (intros; apply surplusCell_one_call).
  cbn [fst]. unfold hexField, num_at.
  rewrite (mapi_nth_map (rawScore h3)
             (fun j raw c =>
                let sc := hexScore _ _ raw (rand_value (seededRandom 42) (j - 0)) in
                mkSurplusCell c sc (Math.round (sc * Fin 8000)%js))).
  apply mapi_ext_from. intros j c _. now rewrite Nat.sub_0_r.
Qed.

Lemma generateTexasTemperatureData_closed (h3 : H3) (resolution : option Z) :
  generateTexasTemperatureData h3 resolution
  = cells <- tiling h3 resolution ;; Returned (tempField h3 cells).
Proof.
  unfold generateTexasTemperatureData, tiling. cbv zeta.
  destruct (polygonToCells h3 TEXAS_POLYGON (default_arg 5%Z resolution))
    as [cells | e]; [| reflexivity].
  cbn [bind]. f_equal.
  rewrite (mapi_rand_one_call
             (fun h3Index (_ : nat) rand => temperatureCell h3 h3Index rand)
             (fun c (_ : nat) r =>
                let sc := tempScore (fst (cellToLatLng h3 c))
                                    (snd (cellToLatLng h3 c)) r in
                mkTemperatureCell c sc (Math.round (Fin 65 + sc * Fin 50)%js)))
    by (intros; apply temperatureCell_one_call).
  cbn [fst]. unfold tempField.
  apply mapi_ext_from. intros j c _. now rewrite Nat.sub_0_r.
Qed.

(** The generator register once a builder is done: one call per cell. *)
Lemma hex_pass_register (raw : list num) (mn range : num) (cells : list string)
      (rand : Rng) :
  snd (mapi_rand (surplusCell raw mn range) cells 0 rand)
  = rng_after (length cells) rand.
Proof.
  rewrite (mapi_rand_one_call
             (surplusCell raw mn range)
             (fun c i r =>
                let sc := hexScore mn range (num_at raw i) r in
                mkSurplusCell c sc (Math.round (sc * Fin 8000)%js)))
    by (intros; apply surplusCell_one_call).
  reflexivity.
Qed.

(** Indexed maps whose callback reads [temp[i]]. *)
Lemma mapi_outcome_zip {A B C : Type} (g : nat -> A -> B -> C)
      (xs : list A) (ts pre : list B) :
  length xs = length ts ->
  mapi_outcome (fun x i => t <- item_at (pre ++ ts) i ;; Returned (g i x t))
               xs (length pre)
  = Returned (mapi (fun j xt => g j (fst xt) (snd xt)) (List.combine xs ts)
                   (length pre)).
Proof.
  revert ts pre. induction xs as [| x xs IH]; intros ts pre Hlen.
  - reflexivity.
  - destruct ts as [| t ts]; [discriminate |].
    cbn [mapi_outcome List.combine mapi].
    unfold item_at at 1.
    rewrite nth_error_app2, Nat.sub_diag by apply le_n.
    cbn [nth_error bind fst snd].
    specialize (IH ts (pre ++ [t])).
    rewrite <- app_assoc, length_app, Nat.add_1_r in IH. cbn [app] in IH.
    rewrite IH by (simpl in Hlen; lia).
    reflexivity.
Qed.

Lemma hexField_length (h3 : H3) (cells : list string) :
  length (hexField h3 cells) = length cells.
Proof. apply mapi_length. Qed.

Lemma tempField_length (h3 : H3) (cells : list string) :
  length (tempField h3 cells) = length cells.
Proof. apply mapi_length. Qed.

Lemma combine_map_both {A B C D : Type} (f : A -> C) (g : B -> D)
      (xs : list A) (ys : list B) :
  List.combine (map f xs) (map g ys)
  = map (fun p => (f (fst p), g (snd p))) (List.combine xs ys).
Proof.
  revert ys. induction xs as [| x xs IH]; intros ys; [reflexivity |].
  destruct ys as [| y ys]; [reflexivity |].
  cbn [map List.combine fst snd]. now rewrite IH.
Qed.

Lemma combineRaw_cells (surplus : list SurplusCell) (temp : list TemperatureCell) :
  combineRaw (map s_score surplus) (map t_score temp)
  = map (fun st => (s_score (fst st) * (Fin 1 - t_score (snd st)))%js)
        (List.combine surplus temp).
Proof.
  unfold combineRaw. rewrite combine_map_both, map_map. reflexivity.
Qed.

(** The body of [generateTexasCombinedData] once both component fields are
    there: it cannot throw when they have the same number of records. *)
Lemma combined_body_closed (surplus : list SurplusCell) (temp : list TemperatureCell) :
  length surplus = length temp ->
  (raw <- mapi_outcome
            (fun s0 i => t <- item_at temp i ;;
                         Returned (s_score s0 * (Fin 1 - t_score t))%js)
            surplus 0 ;;
   mapi_outcome
     (fun s0 i => t <- item_at temp i ;;
                  Returned (mkCombinedCell
                              (s_h3Index s0)
                              ((num_at raw i - Math.min_of raw)
                               / (Math.max_of raw - Math.min_of raw))%js
                              (s_surplusMwh s0)
                              (t_tempF t)))
     surplus 0)
  = Returned (combinedField surplus temp).
Proof.
  intros Hlen.
  pose proof (mapi_outcome_zip
                (fun (_ : nat) s0 t => (s_score s0 * (Fin 1 - t_score t))%js)
                surplus temp [] Hlen) as E.
  cbn [app length] in E. rewrite E. clear E.
  cbn [bind].
  rewrite mapi_const_index.
  set (raw := map _ (List.combine surplus temp)).
  pose proof (mapi_outcome_zip
                (fun i s0 t =>
                   mkCombinedCell (s_h3Index s0)
                                  ((num_at raw i - Math.min_of raw)
                                   / (Math.max_of raw - Math.min_of raw))%js
                                  (s_surplusMwh s0) (t_tempF t))
                surplus temp [] Hlen) as E.
  cbn [app length] in E. rewrite E. clear E.
  f_equal.
  unfold combinedField. rewrite combineRaw_cells. fold raw.
  unfold num_at. subst raw.
  rewrite (mapi_nth_map
             (fun st => (s_score (fst st) * (Fin 1 - t_score (snd st)))%js)
             (fun (_ : nat) x (st : SurplusCell * TemperatureCell) =>
                mkCombinedCell (s_h3Index (fst st))
                               ((x - Math.min_of _) / (Math.max_of _ - Math.min_of _))%js
                               (s_surplusMwh (fst st)) (t_tempF (snd st)))).
  rewrite mapi_const_index.
  apply map_ext. intros [s0 t0]. reflexivity.
Qed.

Lemma generateTexasCombinedData_closed (h3 : H3) (resolution : option Z) :
  generateTexasCombinedData h3 resolution
  = cells <- tiling h3 resolution ;;
    Returned (combinedField (hexField h3 cells) (tempField h3 cells)).
Proof.
  unfold generateTexasCombinedData. cbv zeta.
  rewrite generateTexasHexData_closed, generateTexasTemperatureData_closed.
  change (tiling h3 (Some (default_arg 5%Z resolution))) with (tiling h3 resolution).
  destruct (tiling h3 resolution) as [cells | e]; [| reflexivity].
  cbn [bind].
  apply combined_body_closed.
  now rewrite hexField_length, tempField_length.
Qed.

(* ================================================================= *)
(** ** Extrema of a raw field *)

Lemma min_above (m : R) (a b : num) : above m (Math.min a b) -> above m a /\ above m b.
Proof.
  unfold above, PosInf.
  destruct a as [| [|] | x]; destruct b as [| [|] | y]; cbn [Math.min];
    intros [H | [r [H Hr]]]; try discriminate; try (split; auto; fail).
  - split; [left; reflexivity | right; eauto].
  - split; [right; eauto | left; reflexivity].
  - injection H as <-.
    pose proof (Rmin_l x y). pose proof (Rmin_r x y).
    split; right; eexists; (split; [reflexivity | lra]).
Qed.

Lemma max_below (M : R) (a b : num) : below M (Math.max a b) -> below M a /\ below M b.
Proof.
  unfold below, NegInf.
  destruct a as [| [|] | x]; destruct b as [| [|] | y]; cbn [Math.max];
    intros [H | [r [H Hr]]]; try discriminate; try (split; auto; fail).
  - split; [left; reflexivity | right; eauto].
  - split; [right; eauto | left; reflexivity].
  - injection H as <-.
    pose proof (Rmax_l x y). pose proof (Rmax_r x y).
    split; right; eexists; (split; [reflexivity | lra]).
Qed.

Lemma fold_min_above (m : R) (xs : list num) (a : num) :
  fold_left Math.min xs a = Fin m -> above m a /\ Forall (above m) xs.
Proof.
  revert a. induction xs as [| x xs IH]; intros a H; cbn [fold_left] in H.
  - split; [| constructor]. right. exists m. split; [assumption | lra].
  - destruct (IH _ H) as [H1 H2]. apply min_above in H1 as [Ha Hx].
    split; [assumption | constructor; assumption].
Qed.

Lemma fold_max_below (M : R) (xs : list num) (a : num) :
  fold_left Math.max xs a = Fin M -> below M a /\ Forall (below M) xs.
Proof.
  revert a. induction xs as [| x xs IH]; intros a H; cbn [fold_left] in H.
  - split; [| constructor]. right. exists M. split; [assumption | lra].
  - destruct (IH _ H) as [H1 H2]. apply max_below in H1 as [Ha Hx].
    split; [assumption | constructor; assumption].
Qed.

(** A field whose range is a finite number has finite extrema, and every
    value of the field is a finite number between them. *)
Lemma finite_range_bounds (xs : list num) (d : R) :
  spread xs = Fin d ->
  exists m M : R,
    Math.min_of xs = Fin m /\ Math.max_of xs = Fin M /\ d = (M - m)%R /\
    Forall (fun x => exists r : R, x = Fin r /\ (m <= r <= M)%R) xs.
Proof.
  unfold spread. intros H.
  destruct (Math.max_of xs) as [| [|] | M] eqn:EM;
    destruct (Math.min_of xs) as [| [|] | m] eqn:Em;
    cbn in H; try discriminate.
  injection H as H.
  exists m, M. repeat split; try reflexivity; [lra |].
  apply fold_min_above in Em as [_ Hm].
  apply fold_max_below in EM as [_ HM].
  rewrite Forall_forall in *. intros x Hx.
  pose proof (Hm x Hx) as Hlo. pose proof (HM x Hx) as Hhi.
  destruct Hlo as [-> | [r [-> Hr]]]; destruct Hhi as [E | [r' [E Hr']]];
    try discriminate.
  injection E as <-. exists r. split; [reflexivity | lra].
Qed.

(** A field whose range is exactly zero is constant: every value is the
    finite minimum. *)
Lemma zero_range_constant (xs : list num) :
  spread xs = Fin 0 ->
  exists m : R, Math.min_of xs = Fin m /\ Forall (fun x => x = Fin m) xs.
Proof.
  intros H.
  destruct (finite_range_bounds _ H) as [m [M [Em [_ [Hd Hall]]]]].
  exists m. split; [assumption |].
  eapply Forall_impl; [| exact Hall].
  intros x [r [-> Hr]]. f_equal. lra.
Qed.

(* ================================================================= *)
(** ** The influence model: formula, peak value, cancellation *)

(** C4.  A source with nonzero radii contributes
    [w * exp (- (dlat^2 / (2 sigLat^2) + dlng^2 / (2 sigLng^2)))] at a point,
    whatever the sign of [w]; the raw value of a cell is the sum of the
    contributions of the supply sources followed by the demand sinks, taken in
    list order from 0. *)
Theorem influence_model_formula
        (h3 : H3) (c : string) (pLat pLng sLat sLng w sigLat sigLng : R) :
  sigLat <> 0%R -> sigLng <> 0%R ->
  cellToLatLng h3 c = (Fin pLat, Fin pLng) ->
  anisotropicGaussian (Fin pLat) (Fin pLng) (src sLat sLng w sigLat sigLng)
  = Fin (w * exp (- ((pLat - sLat) ^ 2 / (2 * sigLat ^ 2)
                     + (pLng - sLng) ^ 2 / (2 * sigLng ^ 2))))
  /\ rawScore h3 c
     = fold_left (fun acc source =>
                    (acc + anisotropicGaussian (Fin pLat) (Fin pLng) source)%js)
                 (SUPPLY_SOURCES ++ DEMAND_SINKS) (Fin 0)
  /\ rawScore h3 c = Fin (gaussian_sum pLat pLng (supply_table ++ sink_table)).
Proof.
  intros Hla Hlo Hc. split; [| split].
  - now apply anisotropicGaussian_Fin.
  - rewrite rawScore_evaluate, Hc. reflexivity.
  - now apply rawScore_Fin.
Qed.

(** C8.  At its own location a source with nonzero radii contributes exactly
    its weight; the source of the specification's example contributes 1. *)
Theorem gaussian_at_source (sLat sLng w sigLat sigLng : R) :
  sigLat <> 0%R -> sigLng <> 0%R ->
  anisotropicGaussian (Fin sLat) (Fin sLng) (src sLat sLng w sigLat sigLng) = Fin w
  /\ anisotropicGaussian (Fin 32.0) (Fin (-97.0)) (src 32.0 (-97.0) 1.0 1.0 1.0)
     = Fin 1.0.
Proof.
  intros Hla Hlo.
  assert (forall a b v r1 r2 : R, r1 <> 0%R -> r2 <> 0%R ->
            anisotropicGaussian (Fin a) (Fin b) (src a b v r1 r2) = Fin v) as At.
  { intros a b v r1 r2 H1 H2.
    rewrite anisotropicGaussian_Fin by assumption.
    unfold gaussian. f_equal.
    replace (- ((a - a) ^ 2 / (2 * r1 ^ 2) + (b - b) ^ 2 / (2 * r2 ^ 2)))%R
      with 0%R by (field; split; assumption).
    rewrite exp_0. lra. }
  split; [now apply At | apply At; lra].
Qed.

(** C9.  Two sources at one location with the same nonzero radii
    and opposite weights contribute a sum of exactly 0 at every point. *)
Theorem opposite_sources_cancel (pLat pLng sLat sLng w sigLat sigLng : R) :
  sigLat <> 0%R -> sigLng <> 0%R ->
  (anisotropicGaussian (Fin pLat) (Fin pLng) (src sLat sLng w sigLat sigLng)
   + anisotropicGaussian (Fin pLat) (Fin pLng) (src sLat sLng (- w) sigLat sigLng))%js
  = Fin 0.
Proof.
  intros Hla Hlo.
  rewrite !anisotropicGaussian_Fin by assumption.
  unfold gaussian. cbn [add]. f_equal. lra.
Qed.

(* ================================================================= *)
(** ** Scores stay in the unit interval *)

Lemma Forall_mapi {A B : Type} (P : B -> Prop) (f : nat -> A -> B)
      (xs : list A) (i : nat) :
  (forall j x, In x xs -> P (f j x)) -> Forall P (mapi f xs i).
Proof.
  revert i. induction xs as [| x xs IH]; intros i H; cbn [mapi]; constructor.
  - apply H. now left.
  - apply IH. intros j y Hy. apply H. now right.
Qed.

Lemma jitter_Fin (r amplitude : R) :
  jitter (Fin r) (Fin amplitude) = Fin ((r - 0.5) * amplitude).
Proof. reflexivity. Qed.

Lemma hexScore_in_unit (m d x : R) (r : num) :
  d <> 0%R -> in_unit r -> in_unit (hexScore (Fin m) (Fin d) (Fin x) r).
Proof.
  intros Hd [rho [-> _]]. unfold hexScore.
  rewrite jitter_Fin. cbn [sub neg add]. rewrite div_Fin by assumption.
  cbn [add]. apply clamp01_Fin_in_unit.
Qed.

Lemma tempBase_Fin (la lo : R) :
  tempBase (Fin la) (Fin lo)
  = Fin (0.65 * (1 - (la - 25.8) / (36.5 - 25.8))
         + 0.20 * (1 - (lo - -106.6) / (-93.5 - -106.6))).
Proof.
  unfold tempBase, LAT_MIN, LAT_MAX, LNG_MIN, LNG_MAX.
  cbn [sub neg add]. rewrite !div_Fin by lra. cbn [add neg mul].
  f_equal; lra.
Qed.

Lemma tempScore_in_unit (la lo : R) (r : num) :
  in_unit r -> in_unit (tempScore (Fin la) (Fin lo) r).
Proof.
  intros [rho [-> _]]. unfold tempScore.
  rewrite tempBase_Fin, jitter_Fin. cbn [add]. apply clamp01_Fin_in_unit.
Qed.

Lemma tempField_in_unit (h3 : H3) (cells : list string) :
  finite_centroids h3 cells ->
  Forall (fun d => in_unit (t_score d)) (tempField h3 cells).
Proof.
  intros Hfin. unfold tempField. apply Forall_mapi. intros j c Hc.
  unfold finite_centroids in Hfin. rewrite Forall_forall in Hfin.
  destruct (Hfin c Hc) as [[la ->] [lo ->]].
  cbn [t_score]. apply tempScore_in_unit, rand_value_in_unit.
Qed.

Lemma hexField_unit_or_NaN (h3 : H3) (cells : list string) :
  Forall (fun d => unit_or_NaN (s_score d)) (hexField h3 cells).
Proof.
  unfold hexField. cbv zeta. apply Forall_mapi. intros j c _.
  apply clamp01_cases.
Qed.

Lemma tempField_unit_or_NaN (h3 : H3) (cells : list string) :
  Forall (fun d => unit_or_NaN (t_score d)) (tempField h3 cells).
Proof.
  unfold tempField. apply Forall_mapi. intros j c _.
  apply clamp01_cases.
Qed.

Lemma hexField_in_unit (h3 : H3) (cells : list string) :
  nonzero_range (spread (map (rawScore h3) cells)) ->
  Forall (fun d => in_unit (s_score d)) (hexField h3 cells).
Proof.
  intros [d [Hrange Hd]].
  destruct (finite_range_bounds _ Hrange) as [m [M [Em [EM [_ Hall]]]]].
  unfold hexField. cbv zeta. apply Forall_mapi. intros j c Hc. cbn [s_score].
  fold (spread (map (rawScore h3) cells)). rewrite Hrange, Em.
  rewrite Forall_forall in Hall.
  destruct (Hall (rawScore h3 c) (in_map _ _ _ Hc)) as [r [-> _]].
  apply hexScore_in_unit; [assumption | apply rand_value_in_unit].
Qed.

(** A min-max pass maps a field with a nonzero finite range into [0,1]. *)
Lemma minMax_value_in_unit (m M r : R) :
  (M - m <> 0)%R -> (m <= r <= M)%R ->
  in_unit ((Fin r - Fin m) / Fin (M - m))%js.
Proof.
  intros Hne Hr. cbn [sub neg add]. rewrite div_Fin by assumption.
  eexists; split; [reflexivity |].
  assert (0 < M - m)%R as Hpos by lra.
  split.
  - apply Rmult_le_pos; [lra |]. left. now apply Rinv_0_lt_compat.
  - apply Rmult_le_reg_r with (r := (M - m)%R); [assumption |].
    unfold Rdiv. rewrite Rmult_assoc, Rinv_l by assumption. lra.
Qed.

Lemma combinedField_in_unit (surplus : list SurplusCell) (temp : list TemperatureCell) :
  nonzero_range (spread (combineRaw (map s_score surplus) (map t_score temp))) ->
  Forall (fun d => in_unit (c_score d)) (combinedField surplus temp).
Proof.
  intros [d [Hrange Hd]].
  destruct (finite_range_bounds _ Hrange) as [m [M [Em [EM [HdM Hall]]]]].
  unfold combinedField. cbv zeta. apply Forall_map.
  rewrite Forall_forall. intros [s0 t0] Hin. cbn [c_score].
  fold (spread (combineRaw (map s_score surplus) (map t_score temp))).
  rewrite Hrange, Em, HdM.
  rewrite Forall_forall in Hall.
  destruct (Hall (s_score s0 * (Fin 1 - t_score t0))%js) as [r [-> Hr]].
  - rewrite combineRaw_cells.
    apply (in_map (fun st => (s_score (fst st) * (Fin 1 - t_score (snd st)))%js)
                  _ (s0, t0) Hin).
  - apply minMax_value_in_unit; [lra | assumption].
Qed.

(** C1, as amended.  The scores emitted by the three builders lie in [0,1]
    under these conditions: the temperature scores when the centroids are
    finite, the surplus scores when the raw range is a nonzero number, and
    the combined scores, which are not clamped, when the combined raw range
    is a nonzero number.  Whatever the input, a surplus or temperature score
    is in [0,1] or NaN. *)
Theorem scores_in_unit_interval
        (h3 : H3) (resolution : option Z) (cells : list string) :
  tiling h3 resolution = Returned cells ->
  exists (surplus : list SurplusCell) (temp : list TemperatureCell)
         (combined : list CombinedCell),
    generateTexasHexData h3 resolution = Returned surplus /\
    generateTexasTemperatureData h3 resolution = Returned temp /\
    generateTexasCombinedData h3 resolution = Returned combined /\
    Forall (fun d => unit_or_NaN (s_score d)) surplus /\
    Forall (fun d => unit_or_NaN (t_score d)) temp /\
    (finite_centroids h3 cells ->
     Forall (fun d => in_unit (t_score d)) temp) /\
    (nonzero_range (spread (map (rawScore h3) cells)) ->
     Forall (fun d => in_unit (s_score d)) surplus) /\
    (nonzero_range (spread (combineRaw (map s_score surplus) (map t_score temp))) ->
     Forall (fun d => in_unit (c_score d)) combined).
Proof.
  intros Htile.
  exists (hexField h3 cells), (tempField h3 cells),
         (combinedField (hexField h3 cells) (tempField h3 cells)).
  rewrite generateTexasHexData_closed, generateTexasTemperatureData_closed,
          generateTexasCombinedData_closed, Htile.
  cbn [bind].
  repeat split; try reflexivity.
  - apply hexField_unit_or_NaN.
  - apply tempField_unit_or_NaN.
  - apply tempField_in_unit.
  - apply hexField_in_unit.
  - apply combinedField_in_unit.
Qed.

(* ================================================================= *)
(** ** Inversion of the builders *)

Lemma builders_inv (h3 : H3) (resolution : option Z)
      (surplus : list SurplusCell) (temp : list TemperatureCell) :
  generateTexasHexData h3 resolution = Returned surplus ->
  generateTexasTemperatureData h3 resolution = Returned temp ->
  exists cells : list string,
    tiling h3 resolution = Returned cells /\
    surplus = hexField h3 cells /\ temp = tempField h3 cells.
Proof.
  rewrite generateTexasHexData_closed, generateTexasTemperatureData_closed.
  destruct (tiling h3 resolution) as [cells | e]; cbn [bind]; intros Hs Ht;
    [| discriminate].
  exists cells. injection Hs as <-. injection Ht as <-. auto.
Qed.

Lemma map_fst_combine {A B C : Type} (f : A -> C) (xs : list A) (ys : list B) :
  length xs = length ys ->
  map (fun p => f (fst p)) (List.combine xs ys) = map f xs.
Proof.
  revert ys. induction xs as [| x xs IH]; intros [| y ys] H; try discriminate;
    [reflexivity |].
  cbn [List.combine map fst]. f_equal. apply IH. simpl in H. lia.
Qed.

Lemma map_snd_combine {A B C : Type} (f : B -> C) (xs : list A) (ys : list B) :
  length xs = length ys ->
  map (fun p => f (snd p)) (List.combine xs ys) = map f ys.
Proof.
  revert ys. induction xs as [| x xs IH]; intros [| y ys] H; try discriminate;
    [reflexivity |].
  cbn [List.combine map snd]. f_equal. apply IH. simpl in H. lia.
Qed.

Lemma combinedField_scores (surplus : list SurplusCell) (temp : list TemperatureCell) :
  map c_score (combinedField surplus temp)
  = combine (map s_score surplus) (map t_score temp).
Proof.
  unfold combinedField, combine, minMax. cbv zeta.
  set (mn := Math.min_of _). set (range := (Math.max_of _ - mn)%js).
  rewrite combineRaw_cells, !map_map.
  apply map_ext. intros [s0 t0]. reflexivity.
Qed.

(* ================================================================= *)
(** ** The combiner *)

Ltac decide_reals :=
  repeat match goal with
         | |- context [Rle_dec ?a ?b] => destruct (Rle_dec a b); try lra
         | |- context [Req_dec_T ?a ?b] => destruct (Req_dec_T a b); try lra
         | |- context [Rlt_dec ?a ?b] => destruct (Rlt_dec a b); try lra
         | H : context [Rle_dec ?a ?b] |- _ => destruct (Rle_dec a b); try lra
         | H : context [Req_dec_T ?a ?b] |- _ => destruct (Req_dec_T a b); try lra
         | H : context [Rlt_dec ?a ?b] |- _ => destruct (Rlt_dec a b); try lra
         end.

Lemma combine_not_commutative_example :
  combine [Fin 1; Fin 0.5; Fin 0] [Fin 0; Fin 0; Fin 0.5]
  <> combine [Fin 0; Fin 0; Fin 0.5] [Fin 1; Fin 0.5; Fin 0].
Proof.
  intros E. apply (f_equal (fun l => hd NaN l)) in E.
  unfold combine, minMax, combineRaw, Math.min_of, Math.max_of, PosInf, NegInf in E.
  cbn [List.combine map fold_left fst snd hd sub neg add mul Math.min Math.max] in E.
  unfold div, Rzero, Rmin, Rmax in E.
  decide_reals; try discriminate.
  injection E as E. field_simplify in E; lra.
Qed.

(** C2.  The combined scores are the min-max normalization, without any
    generator value, of the elementwise products
    [surplus.score[i] * (1 - temperature.score[i])]; the combiner is not
    commutative. *)
Theorem combined_field_formula
        (h3 : H3) (resolution : option Z)
        (surplus : list SurplusCell) (temp : list TemperatureCell) :
  generateTexasHexData h3 resolution = Returned surplus ->
  generateTexasTemperatureData h3 resolution = Returned temp ->
  (exists combined : list CombinedCell,
      generateTexasCombinedData h3 resolution = Returned combined /\
      let raw := map (fun st : SurplusCell * TemperatureCell =>
                        (s_score (fst st) * (Fin 1 - t_score (snd st)))%js)
                     (List.combine surplus temp) in
      let minRaw := Math.min_of raw in
      let range := (Math.max_of raw - minRaw)%js in
      map c_score combined = map (fun x => ((x - minRaw) / range)%js) raw /\
      map c_score combined = combine (map s_score surplus) (map t_score temp)) /\
  (exists fieldA fieldB : list num,
      length fieldA = length fieldB /\ combine fieldA fieldB <> combine fieldB fieldA).
Proof.
  intros Hs Ht.
  destruct (builders_inv _ _ Hs Ht) as [cells [Htile [-> ->]]].
  split.
  - exists (combinedField (hexField h3 cells) (tempField h3 cells)).
    rewrite generateTexasCombinedData_closed, Htile. cbn [bind].
    split; [reflexivity |]. cbv zeta.
    rewrite combinedField_scores. split; [| reflexivity].
    unfold combine, minMax. now rewrite combineRaw_cells.
  - exists [Fin 1; Fin 0.5; Fin 0], [Fin 0; Fin 0; Fin 0.5].
    split; [reflexivity | apply combine_not_commutative_example].
Qed.

(** C10.  The combined field has one record per surplus record, in the same
    order and with the same cell identifier, and carries the surplus
    magnitude and the temperature of the component fields unchanged. *)
Theorem combined_field_frame
        (h3 : H3) (resolution : option Z)
        (surplus : list SurplusCell) (temp : list TemperatureCell) :
  generateTexasHexData h3 resolution = Returned surplus ->
  generateTexasTemperatureData h3 resolution = Returned temp ->
  exists combined : list CombinedCell,
    generateTexasCombinedData h3 resolution = Returned combined /\
    length combined = length surplus /\
    map c_h3Index combined = map s_h3Index surplus /\
    map c_surplusMwh combined = map s_surplusMwh surplus /\
    map c_tempF combined = map t_tempF temp /\
    forall (i : nat) (rec : CombinedCell),
      nth_error combined i = Some rec ->
      exists (s0 : SurplusCell) (t0 : TemperatureCell),
        nth_error surplus i = Some s0 /\ nth_error temp i = Some t0 /\
        c_h3Index rec = s_h3Index s0 /\
        c_surplusMwh rec = s_surplusMwh s0 /\
        c_tempF rec = t_tempF t0.
Proof.
  intros Hs Ht.
  destruct (builders_inv _ _ Hs Ht) as [cells [Htile [-> ->]]].
  exists (combinedField (hexField h3 cells) (tempField h3 cells)).
  rewrite generateTexasCombinedData_closed, Htile. cbn [bind].
  assert (length (hexField h3 cells) = length (tempField h3 cells)) as Hlen
      by now rewrite hexField_length, tempField_length.
  set (surplus := hexField h3 cells) in *. set (temp := tempField h3 cells) in *.
  assert (map c_h3Index (combinedField surplus temp) = map s_h3Index surplus) as E1.
  { unfold combinedField. cbv zeta. rewrite map_map.
    rewrite <- (map_fst_combine s_h3Index surplus temp Hlen).
    apply map_ext. now intros [s0 t0]. }
  assert (map c_surplusMwh (combinedField surplus temp) = map s_surplusMwh surplus) as E2.
  { unfold combinedField. cbv zeta. rewrite map_map.
    rewrite <- (map_fst_combine s_surplusMwh surplus temp Hlen).
    apply map_ext. now intros [s0 t0]. }
  assert (map c_tempF (combinedField surplus temp) = map t_tempF temp) as E3.
  { unfold combinedField. cbv zeta. rewrite map_map.
    rewrite <- (map_snd_combine t_tempF surplus temp Hlen).
    apply map_ext. now intros [s0 t0]. }
  split; [reflexivity |].
  split.
  { rewrite <- (length_map c_h3Index), E1. apply length_map. }
  repeat split; try assumption.
  intros i rec Hrec.
  pose proof (f_equal (fun l => nth_error l i) E1) as N1.
  pose proof (f_equal (fun l => nth_error l i) E2) as N2.
  pose proof (f_equal (fun l => nth_error l i) E3) as N3.
  cbv beta in N1, N2, N3. rewrite !nth_error_map, Hrec in *.
  destruct (nth_error surplus i) as [s0 |]; [| discriminate].
  destruct (nth_error temp i) as [t0 |]; [| discriminate].
  cbn [option_map] in *.
  exists s0, t0. repeat split; congruence.
Qed.

(* ================================================================= *)
(** ** The stream of the generator in closed form *)

Lemma rng_after_register (seed : Z) (n : nat) :
  s (rng_after n (seededRandom seed)) = Nat.iter n lcg seed.
Proof.
  induction n as [| n IH]; [reflexivity |].
  change (rng_after (S n) (seededRandom seed))
    with (rng_after n (snd (call (seededRandom seed)))).
  rewrite rng_after_S, call_eq. cbn [snd s Nat.iter]. now rewrite IH.
Qed.

Lemma rand_value_closed (seed : Z) (n : nat) :
  rand_value (seededRandom seed) n
  = Fin (IZR (ToUint32 (Nat.iter (S n) lcg seed)) / 4294967295).
Proof.
  unfold rand_value. rewrite call_eq, rng_after_register. reflexivity.
Qed.

Lemma ToUint32_ToInt32 (z : Z) : ToUint32 (ToInt32 z) = ToUint32 z.
Proof.
  unfold ToUint32, ToInt32.
  destruct (Z.leb_spec (2 ^ 31) (z mod 2 ^ 32)).
  - replace (z mod 2 ^ 32 - 2 ^ 32)%Z with (z mod 2 ^ 32 + (-1) * 2 ^ 32)%Z by lia.
    rewrite Z.mod_add by lia. apply Z.mod_mod. lia.
  - apply Z.mod_mod. lia.
Qed.

Lemma ToUint32_lcg (z : Z) : ToUint32 (lcg z) = ulcg (ToUint32 z).
Proof.
  unfold lcg, ulcg. rewrite ToUint32_ToInt32. unfold ToUint32.
  rewrite (Z.add_mod (z mod 2 ^ 32 * 1664525)) by lia.
  rewrite Z.mul_mod_idemp_l by lia.
  rewrite <- Z.add_mod by lia. reflexivity.
Qed.

Lemma ToUint32_iter_lcg (seed : Z) (n : nat) :
  ToUint32 (Nat.iter n lcg seed) = Nat.iter n ulcg (ToUint32 seed).
Proof.
  induction n as [| n IH]; [reflexivity |].
  change (Nat.iter (S n) lcg seed) with (lcg (Nat.iter n lcg seed)).
  change (Nat.iter (S n) ulcg (ToUint32 seed))
    with (ulcg (Nat.iter n ulcg (ToUint32 seed))).
  now rewrite ToUint32_lcg, IH.
Qed.

Lemma rand_value_unsigned (seed : Z) (n : nat) :
  rand_value (seededRandom seed) n
  = Fin (IZR (Nat.iter (S n) ulcg (seed mod 2 ^ 32)%Z) / 4294967295).
Proof.
  rewrite rand_value_closed, ToUint32_iter_lcg. reflexivity.
Qed.

(* ================================================================= *)
(** ** The normalizer *)

Lemma hex_pass_scores (rawField : list num) (cells : list string) (rand : Rng) :
  length cells = length rawField ->
  map s_score
      (fst (mapi_rand (surplusCell rawField (Math.min_of rawField)
                                   (Math.max_of rawField - Math.min_of rawField)%js)
                      cells 0 rand))
  = mapi (fun i raw =>
            clamp01 ((raw - Math.min_of rawField)
                     / (Math.max_of rawField - Math.min_of rawField)
                     + (rand_value rand i - Fin 0.5) * Fin 0.06)%js)
         rawField 0.
Proof.
  intros Hlen.
  rewrite (mapi_rand_one_call
             (surplusCell rawField _ _)
             (fun c i r =>
                let sc := hexScore (Math.min_of rawField)
                                   (Math.max_of rawField - Math.min_of rawField)%js
                                   (num_at rawField i) r in
                mkSurplusCell c sc (Math.round (sc * Fin 8000)%js)))
    by (intros; apply surplusCell_one_call).
  cbn [fst]. rewrite map_mapi.
  apply nth_error_ext. intros k. rewrite !nth_error_mapi. cbn [Nat.add s_score].
  rewrite Nat.sub_0_r.
  destruct (nth_error cells k) as [c |] eqn:Ec;
    destruct (nth_error rawField k) as [raw |] eqn:Er; cbn [option_map].
  - unfold num_at. now rewrite (nth_error_nth _ _ _ Er).
  - apply nth_error_None in Er. assert (k < length cells)%nat; [| lia].
    apply nth_error_Some. now rewrite Ec.
  - apply nth_error_None in Ec. assert (k < length rawField)%nat; [| lia].
    apply nth_error_Some. now rewrite Er.
  - reflexivity.
Qed.

Lemma hexField_scores (h3 : H3) (cells : list string) :
  map s_score (hexField h3 cells)
  = normalize (map (rawScore h3) cells) 42 (Fin 0.06).
Proof.
  unfold hexField, normalize. cbv zeta.
  rewrite map_mapi, mapi_map. reflexivity.
Qed.

Lemma hexField_cells (h3 : H3) (cells : list string) :
  map s_h3Index (hexField h3 cells) = cells.
Proof.
  unfold hexField. cbv zeta. rewrite map_mapi. cbn [s_h3Index].
  rewrite mapi_const_index. apply map_id.
Qed.

Lemma hex_pass_records (rawField : list num) (cells : list string) (rand : Rng)
      (i : nat) (raw : num) :
  length cells = length rawField ->
  nth_error rawField i = Some raw ->
  exists d : SurplusCell,
    nth_error (fst (mapi_rand (surplusCell rawField (Math.min_of rawField)
                                           (Math.max_of rawField
                                            - Math.min_of rawField)%js)
                              cells 0 rand)) i = Some d /\
    s_score d
    = clamp01 ((raw - Math.min_of rawField)
               / (Math.max_of rawField - Math.min_of rawField)
               + (rand_value rand i - Fin 0.5) * Fin 0.06)%js.
Proof.
  intros Hlen Hraw.
  pose proof (hex_pass_scores rawField cells rand Hlen) as Hs.
  apply (f_equal (fun l => nth_error l i)) in Hs.
  rewrite nth_error_map, nth_error_mapi, Hraw in Hs.
  cbn [option_map Nat.add] in Hs.
  destruct (nth_error (fst (mapi_rand _ cells 0 rand)) i) as [d |];
    [| discriminate].
  exists d. split; [reflexivity |]. cbn [option_map] in Hs. now injection Hs.
Qed.

(** C3, as amended.  The second pass of the surplus builder computes the
    extrema of the whole raw field before any score, then gives cell [i] the
    score [clamp01 ((raw - min) / (max - min) + (r_i - 0.5) * 0.06)], where
    [r_i] is state [i + 1] of the recurrence
    [u <- (u * 1664525 + 1013904223) mod 2^32] started at the seed modulo
    2^32, divided by 2^32 - 1; the register is left exactly one step per
    cell further.  The amplitude 0.06 is a constant of the pass, and
    [generateTexasHexData] runs it on the raw scores of its cells with the
    seed 42. *)
Theorem normalizer_two_pass_jitter
        (h3 : H3) (resolution : option Z) (cells : list string)
        (rawField : list num) (seed : Z) :
  (- 2 ^ 31 <= seed < 2 ^ 31)%Z ->
  length cells = length rawField ->
  tiling h3 resolution = Returned cells ->
  let state := fun (seed0 : Z) (n : nat) =>
                 Nat.iter n (fun u => ((u * 1664525 + 1013904223) mod 2 ^ 32)%Z)
                          (seed0 mod 2 ^ 32)%Z in
  let draw := fun (seed0 : Z) (i : nat) =>
                Fin (IZR (state seed0 (S i)) / 4294967295) in
  (let minRaw := Math.min_of rawField in
   let range := (Math.max_of rawField - minRaw)%js in
   let run := mapi_rand (surplusCell rawField minRaw range) cells 0
                        (seededRandom seed) in
   length (fst run) = length rawField /\
   (forall (i : nat) (raw : num),
       nth_error rawField i = Some raw ->
       exists d : SurplusCell,
         nth_error (fst run) i = Some d /\
         s_score d
         = clamp01 ((raw - minRaw) / range
                    + (draw seed i - Fin 0.5) * Fin 0.06)%js) /\
   (s (snd run) mod 2 ^ 32)%Z = state seed (length cells)) /\
  (exists data : list SurplusCell,
      generateTexasHexData h3 resolution = Returned data /\
      map s_h3Index data = cells /\
      forall (i : nat) (c : string),
        nth_error cells i = Some c ->
        exists d : SurplusCell,
          nth_error data i = Some d /\
          s_score d
          = clamp01 ((rawScore h3 c - Math.min_of (map (rawScore h3) cells))
                     / (Math.max_of (map (rawScore h3) cells)
                        - Math.min_of (map (rawScore h3) cells))
                     + (draw 42%Z i - Fin 0.5) * Fin 0.06)%js).
Proof.
  intros _ Hlen Htile state draw.
  assert (forall seed0 i, draw seed0 i = rand_value (seededRandom seed0) i) as Hdraw.
  { intros seed0 i. symmetry. apply rand_value_unsigned. }
  split.
  - cbv zeta. split; [| split].
    + rewrite <- (length_map s_score), hex_pass_scores by assumption.
      apply mapi_length.
    + intros i raw Hraw. rewrite Hdraw. now apply hex_pass_records.
    + rewrite hex_pass_register, rng_after_register.
      apply (ToUint32_iter_lcg seed (length cells)).
  - exists (hexField h3 cells).
    rewrite generateTexasHexData_closed, Htile. cbn [bind].
    split; [reflexivity |].
    split; [apply hexField_cells |].
    intros i c Hc. unfold hexField. cbv zeta.
    rewrite nth_error_mapi, Hc. cbn [option_map Nat.add].
    eexists; split; [reflexivity |]. cbn [s_score]. now rewrite Hdraw.
Qed.

(* ================================================================= *)
(** ** Determinism: the generator as a closure on the heap *)

Lemma store_fresh (heap : Closures.Heap) (v x : Z) :
  Closures.store (length heap) x (heap ++ [v]) = heap ++ [x].
Proof.
  induction heap as [| a heap IH]; [reflexivity |].
  cbn [length app Closures.store]. now rewrite IH.
Qed.

Lemma heap_call_fresh (heap : Closures.Heap) (v : Z) :
  Closures.call (length heap) (heap ++ [v])
  = (fst (call (mkRng v)), heap ++ [s (snd (call (mkRng v)))]).
Proof.
  unfold Closures.call, call. cbv zeta. cbn [fst snd s].
  rewrite nth_middle, store_fresh. reflexivity.
Qed.

Lemma heap_call_n_fresh (heap : Closures.Heap) (n : nat) (v : Z) :
  Closures.call_n (length heap) n (heap ++ [v])
  = heap ++ [s (rng_after n (mkRng v))].
Proof.
  revert v. induction n as [| n IH]; intros v; [reflexivity |].
  cbn [Closures.call_n rng_after]. rewrite heap_call_fresh. cbn [snd].
  rewrite IH. now destruct (snd (call (mkRng v))).
Qed.

Lemma mapi_heap_fresh {A B : Type}
      (F : A -> nat -> Closures.Heap -> B * Closures.Heap)
      (G : A -> nat -> Rng -> B * Rng) (heap : Closures.Heap) :
  (forall x i v,
      F x i (heap ++ [v])
      = (fst (G x i (mkRng v)), heap ++ [s (snd (G x i (mkRng v)))])) ->
  forall (xs : list A) (i : nat) (v : Z),
    Closures.mapi_heap F xs i (heap ++ [v])
    = (fst (mapi_rand G xs i (mkRng v)),
       heap ++ [s (snd (mapi_rand G xs i (mkRng v)))]).
Proof.
  intros HF xs. induction xs as [| x xs IH]; intros i v; [reflexivity |].
  cbn [Closures.mapi_heap mapi_rand]. rewrite HF.
  destruct (G x i (mkRng v)) as [y [v1]]. cbn [fst snd s].
  rewrite IH.
  destruct (mapi_rand G xs (S i) (mkRng v1)) as [ys r2]. reflexivity.
Qed.

Lemma heap_surplusCell_fresh (rawScores : list num) (minRaw range : num)
      (heap : Closures.Heap) (c : string) (i : nat) (v : Z) :
  Closures.surplusCell (length heap) rawScores minRaw range c i (heap ++ [v])
  = (fst (surplusCell rawScores minRaw range c i (mkRng v)),
     heap ++ [s (snd (surplusCell rawScores minRaw range c i (mkRng v)))]).
Proof.
  unfold Closures.surplusCell, surplusCell. rewrite heap_call_fresh.
  destruct (call (mkRng v)) as [r r1]. reflexivity.
Qed.

Lemma heap_temperatureCell_fresh (h3 : H3) (heap : Closures.Heap) (c : string) (v : Z) :
  Closures.temperatureCell h3 (length heap) c (heap ++ [v])
  = (fst (temperatureCell h3 c (mkRng v)),
     heap ++ [s (snd (temperatureCell h3 c (mkRng v)))]).
Proof.
  unfold Closures.temperatureCell, temperatureCell.
  destruct (cellToLatLng h3 c) as [la lo]. rewrite heap_call_fresh.
  destruct (call (mkRng v)) as [r r1]. reflexivity.
Qed.

Lemma heap_generateTexasHexData (h3 : H3) (resolution : option Z)
      (heap : Closures.Heap) :
  Closures.generateTexasHexData h3 resolution heap
  = (generateTexasHexData h3 resolution,
     match tiling h3 resolution with
     | Returned cells => heap ++ [Nat.iter (length cells) lcg 42%Z]
     | Thrown _ => heap
     end).
Proof.
  unfold Closures.generateTexasHexData, generateTexasHexData, tiling,
         Closures.seededRandom.
  cbv zeta.
  destruct (polygonToCells h3 TEXAS_POLYGON (default_arg 5%Z resolution))
    as [cells | e]; [| reflexivity].
  cbn [bind].
  rewrite (mapi_heap_fresh
             (Closures.surplusCell (length heap) (map (rawScore h3) cells) _ _)
             (surplusCell (map (rawScore h3) cells) _ _))
    by (intros; apply heap_surplusCell_fresh).
  rewrite hex_pass_register.
  change (mkRng 42%Z) with (seededRandom 42%Z). rewrite rng_after_register.
  reflexivity.
Qed.

Lemma temperature_pass_register (h3 : H3) (cells : list string) (rand : Rng) :
  snd (mapi_rand (fun h3Index (_ : nat) rand => temperatureCell h3 h3Index rand)
                 cells 0 rand)
  = rng_after (length cells) rand.
Proof.
  rewrite (mapi_rand_one_call
             (fun h3Index (_ : nat) rand => temperatureCell h3 h3Index rand)
             (fun c (_ : nat) r =>
                let sc := tempScore (fst (cellToLatLng h3 c))
                                    (snd (cellToLatLng h3 c)) r in
                mkTemperatureCell c sc (Math.round (Fin 65 + sc * Fin 50)%js)))
    by (intros; apply temperatureCell_one_call).
  reflexivity.
Qed.

Lemma heap_generateTexasTemperatureData (h3 : H3) (resolution : option Z)
      (heap : Closures.Heap) :
  Closures.generateTexasTemperatureData h3 resolution heap
  = (generateTexasTemperatureData h3 resolution,
     match tiling h3 resolution with
     | Returned cells => heap ++ [Nat.iter (length cells) lcg 99%Z]
     | Thrown _ => heap
     end).
Proof.
  unfold Closures.generateTexasTemperatureData, generateTexasTemperatureData,
         tiling, Closures.seededRandom.
  cbv zeta.
  destruct (polygonToCells h3 TEXAS_POLYGON (default_arg 5%Z resolution))
    as [cells | e]; [| reflexivity].
  cbn [bind].
  rewrite (mapi_heap_fresh
             (fun h3Index (_ : nat) heap0 =>
                Closures.temperatureCell h3 (length heap) h3Index heap0)
             (fun h3Index (_ : nat) rand => temperatureCell h3 h3Index rand))
    by (intros; apply heap_temperatureCell_fresh).
  rewrite temperature_pass_register.
  change (mkRng 99%Z) with (seededRandom 99%Z). rewrite rng_after_register.
  reflexivity.
Qed.

Lemma heap_generateTexasCombinedData (h3 : H3) (resolution : option Z)
      (heap : Closures.Heap) :
  Closures.generateTexasCombinedData h3 resolution heap
  = (generateTexasCombinedData h3 resolution,
     match tiling h3 resolution with
     | Returned cells =>
         heap ++ [Nat.iter (length cells) lcg 42%Z; Nat.iter (length cells) lcg 99%Z]
     | Thrown _ => heap
     end).
Proof.
  unfold Closures.generateTexasCombinedData, generateTexasCombinedData.
  cbv zeta.
  rewrite heap_generateTexasHexData.
  assert (tiling h3 (Some (default_arg 5%Z resolution)) = tiling h3 resolution) as Et
      by reflexivity.
  rewrite Et.
  destruct (generateTexasHexData h3 (Some (default_arg 5%Z resolution)))
    as [surplus | e] eqn:Eh.
  - rewrite heap_generateTexasTemperatureData, Et.
    rewrite generateTexasHexData_closed, Et in Eh.
    rewrite generateTexasTemperatureData_closed, Et.
    destruct (tiling h3 resolution) as [cells | e]; [| discriminate].
    cbn [bind]. rewrite <- app_assoc. reflexivity.
  - rewrite generateTexasHexData_closed, Et in Eh.
    destruct (tiling h3 resolution) as [cells | e0]; [discriminate |].
    reflexivity.
Qed.

Lemma firstn_heap_app (heap regs : Closures.Heap) :
  firstn (length heap) (heap ++ regs) = heap.
Proof.
  rewrite firstn_app, Nat.sub_diag, firstn_all. cbn [firstn]. apply app_nil_r.
Qed.

Lemma heap_frame (cells : outcome (list string)) (heap : Closures.Heap)
      (regs : list string -> Closures.Heap) :
  firstn (length heap)
         match cells with
         | Returned cells0 => heap ++ regs cells0
         | Thrown _ => heap
         end
  = heap.
Proof.
  destruct cells as [cells0 | e]; [apply firstn_heap_app | apply firstn_all].
Qed.

(** C5.  Every invocation of a builder creates a generator of its own,
    seeded with the builder's constant, and calls it once per cell in array
    order; the field it returns therefore does not depend on the registers
    of the generators that exist when it starts.  Two invocations on the
    same tiler, started from any two heaps, return identical fields, for
    each of the three builders and for the normalization pass with a
    generator freshly made from a given seed; the registers that existed
    before an invocation are left as they were.  Call [n] of a generator
    made from a 32-bit seed returns state [n + 1] of the recurrence
    [u <- (u * 1664525 + 1013904223) mod 2^32] started at the seed modulo
    2^32, divided by 2^32 - 1. *)
Theorem field_generation_deterministic
        (h3 : H3) (resolution : option Z) (seed : Z)
        (rawField : list num) (minRaw range : num) (cells : list string)
        (heap heap' : Closures.Heap) :
  (- 2 ^ 31 <= seed < 2 ^ 31)%Z ->
  (forall n : nat,
      let (rand, heap1) := Closures.seededRandom seed heap in
      fst (Closures.call rand (Closures.call_n rand n heap1))
      = Fin (IZR (Nat.iter (S n)
                           (fun u => ((u * 1664525 + 1013904223) mod 2 ^ 32)%Z)
                           (seed mod 2 ^ 32)%Z)
             / 4294967295)) /\
  (let pass := fun heap0 : Closures.Heap =>
                 let (rand, heap1) := Closures.seededRandom seed heap0 in
                 Closures.mapi_heap
                   (Closures.surplusCell rand rawField minRaw range) cells 0 heap1 in
   fst (pass heap) = fst (pass heap') /\
   firstn (length heap) (snd (pass heap)) = heap) /\
  (fst (Closures.generateTexasHexData h3 resolution heap)
   = fst (Closures.generateTexasHexData h3 resolution heap') /\
   fst (Closures.generateTexasTemperatureData h3 resolution heap)
   = fst (Closures.generateTexasTemperatureData h3 resolution heap') /\
   fst (Closures.generateTexasCombinedData h3 resolution heap)
   = fst (Closures.generateTexasCombinedData h3 resolution heap')) /\
  (firstn (length heap) (snd (Closures.generateTexasHexData h3 resolution heap))
   = heap /\
   firstn (length heap)
          (snd (Closures.generateTexasTemperatureData h3 resolution heap))
   = heap /\
   firstn (length heap) (snd (Closures.generateTexasCombinedData h3 resolution heap))
   = heap) /\
  (fst (Closures.generateTexasHexData h3 resolution heap)
   = generateTexasHexData h3 resolution /\
   fst (Closures.generateTexasTemperatureData h3 resolution heap)
   = generateTexasTemperatureData h3 resolution /\
   fst (Closures.generateTexasCombinedData h3 resolution heap)
   = generateTexasCombinedData h3 resolution).
Proof.
  intros _.
  split; [| split; [| split; [| split]]].
  - intros n. unfold Closures.seededRandom.
    rewrite heap_call_n_fresh, heap_call_fresh. cbn [fst].
    change (mkRng seed) with (seededRandom seed).
    apply (rand_value_unsigned seed n).
  - cbv zeta. unfold Closures.seededRandom.
    rewrite !(mapi_heap_fresh
                (Closures.surplusCell _ rawField minRaw range)
                (surplusCell rawField minRaw range))
      by (intros; apply heap_surplusCell_fresh).
    cbn [fst snd]. split; [reflexivity | apply firstn_heap_app].
  - rewrite !heap_generateTexasHexData, !heap_generateTexasTemperatureData,
            !heap_generateTexasCombinedData.
    repeat split.
  - rewrite heap_generateTexasHexData, heap_generateTexasTemperatureData,
            heap_generateTexasCombinedData.
    cbn [snd].
    repeat split;
      [apply (heap_frame _ _ (fun c => [Nat.iter (length c) lcg 42%Z]))
      |apply (heap_frame _ _ (fun c => [Nat.iter (length c) lcg 99%Z]))
      |apply (heap_frame _ _ (fun c => [Nat.iter (length c) lcg 42%Z;
                                         Nat.iter (length c) lcg 99%Z]))].
  - rewrite heap_generateTexasHexData, heap_generateTexasTemperatureData,
            heap_generateTexasCombinedData.
    repeat split.
Qed.

(* ================================================================= *)
(** ** Degenerate inputs *)

Lemma hexScore_zero_range (m : R) (r : num) :
  hexScore (Fin m) (Fin 0) (Fin m) r = NaN.
Proof.
  unfold hexScore. cbn [sub neg add div].
  rewrite (@Rzero_true 0) by reflexivity.
  rewrite (@Rzero_true (m + - m)) by lra.
  reflexivity.
Qed.

Lemma hexField_zero_range (h3 : H3) (cells : list string) :
  spread (map (rawScore h3) cells) = Fin 0 ->
  Forall (fun d => s_score d = NaN) (hexField h3 cells).
Proof.
  intros Hrange.
  destruct (zero_range_constant _ Hrange) as [m [Em Hall]].
  unfold hexField. cbv zeta. apply Forall_mapi. intros j c Hc. cbn [s_score].
  fold (spread (map (rawScore h3) cells)). rewrite Hrange, Em.
  rewrite Forall_forall in Hall.
  rewrite (Hall (rawScore h3 c) (in_map _ _ _ Hc)).
  apply hexScore_zero_range.
Qed.

Lemma combinedField_zero_range (surplus : list SurplusCell) (temp : list TemperatureCell) :
  spread (combineRaw (map s_score surplus) (map t_score temp)) = Fin 0 ->
  Forall (fun d => c_score d = NaN) (combinedField surplus temp).
Proof.
  intros Hrange.
  destruct (zero_range_constant _ Hrange) as [m [Em Hall]].
  unfold combinedField. cbv zeta. apply Forall_map.
  rewrite Forall_forall. intros [s0 t0] Hin. cbn [c_score].
  fold (spread (combineRaw (map s_score surplus) (map t_score temp))).
  rewrite Hrange, Em.
  rewrite Forall_forall in Hall.
  rewrite (Hall (s_score s0 * (Fin 1 - t_score t0))%js).
  - cbn [sub neg add div].
    rewrite (@Rzero_true 0) by reflexivity.
    rewrite (@Rzero_true (m + - m)) by lra.
    reflexivity.
  - rewrite combineRaw_cells.
    apply (in_map (fun st => (s_score (fst st) * (Fin 1 - t_score (snd st)))%js)
                  _ (s0, t0) Hin).
Qed.

Lemma combinedField_NaN_surplus (surplus : list SurplusCell) (temp : list TemperatureCell) :
  Forall (fun d => s_score d = NaN) surplus ->
  Forall (fun d => c_score d = NaN) (combinedField surplus temp).
Proof.
  intros Hs. unfold combinedField. cbv zeta. apply Forall_map.
  rewrite Forall_forall in *. intros [s0 t0] Hin. cbn [c_score].
  rewrite (Hs s0 (in_combine_l _ _ _ _ Hin)). reflexivity.
Qed.

(** C6, as amended.  A zero raw range raises nothing: the build returns
    normally and every score it emits is NaN.  This holds for the surplus
    field (and then for the combined field built from it), and for the
    combined field when its own raw range is zero. *)
Theorem zero_range_yields_NaN_scores
        (h3 : H3) (resolution : option Z) (cells : list string) :
  tiling h3 resolution = Returned cells ->
  exists (surplus : list SurplusCell) (temp : list TemperatureCell)
         (combined : list CombinedCell),
    generateTexasHexData h3 resolution = Returned surplus /\
    generateTexasTemperatureData h3 resolution = Returned temp /\
    generateTexasCombinedData h3 resolution = Returned combined /\
    (spread (map (rawScore h3) cells) = Fin 0 ->
     Forall (fun d => s_score d = NaN) surplus /\
     Forall (fun d => c_score d = NaN) combined) /\
    (spread (combineRaw (map s_score surplus) (map t_score temp)) = Fin 0 ->
     Forall (fun d => c_score d = NaN) combined).
Proof.
  intros Htile.
  exists (hexField h3 cells), (tempField h3 cells),
         (combinedField (hexField h3 cells) (tempField h3 cells)).
  rewrite generateTexasHexData_closed, generateTexasTemperatureData_closed,
          generateTexasCombinedData_closed, Htile.
  cbn [bind]. repeat split; try reflexivity.
  - now apply hexField_zero_range.
  - now apply combinedField_NaN_surplus, hexField_zero_range.
  - now apply combinedField_zero_range.
Qed.

(** C6, as stated, fails on a tiling of one cell: the raw range is zero, the
    builds return normally, and the scores they emit are NaN. *)
Lemma single_cell_field_emits_NaN :
  spread (map (rawScore h3_single) ["8148bffffffffff"%string]) = Fin 0 /\
  generateTexasHexData h3_single None
  = Returned [mkSurplusCell "8148bffffffffff" NaN NaN] /\
  exists tempF : num,
    generateTexasCombinedData h3_single None
    = Returned [mkCombinedCell "8148bffffffffff" NaN NaN tempF].
Proof.
  assert (rawScore h3_single "8148bffffffffff"
          = Fin (gaussian_sum 31.0 (-100.0) (supply_table ++ sink_table))) as Eraw
      by (apply rawScore_Fin; reflexivity).
  assert (hexField h3_single ["8148bffffffffff"%string]
          = [mkSurplusCell "8148bffffffffff" NaN NaN]) as Ehex.
  { unfold hexField, Math.max_of, Math.min_of, PosInf, NegInf. cbv zeta.
    cbn [map fold_left mapi]. rewrite Eraw.
    cbn [Math.max Math.min].
    unfold hexScore. rewrite self_quotient_NaN.
    reflexivity. }
  split; [| split].
  - unfold spread, Math.max_of, Math.min_of, PosInf, NegInf.
    cbn [map fold_left]. rewrite Eraw. cbn [Math.max Math.min sub neg add].
    f_equal; lra.
  - rewrite generateTexasHexData_closed. unfold tiling, h3_single at 1.
    cbn [polygonToCells bind default_arg]. now rewrite Ehex.
  - rewrite generateTexasCombinedData_closed. unfold tiling, h3_single at 1.
    cbn [polygonToCells bind default_arg]. rewrite Ehex.
    eexists. reflexivity.
Qed.

(** C7, as amended.  When the tiler answers with no cell, each of the three
    builds returns the empty field as an ordinary result; a build throws only
    the error that the tiler itself throws. *)
Theorem empty_tiling_returns_empty_field (h3 : H3) (resolution : option Z) :
  tiling h3 resolution = Returned [] ->
  generateTexasHexData h3 resolution = Returned [] /\
  generateTexasTemperatureData h3 resolution = Returned [] /\
  generateTexasCombinedData h3 resolution = Returned [].
Proof.
  intros Htile.
  rewrite generateTexasHexData_closed, generateTexasTemperatureData_closed,
          generateTexasCombinedData_closed, Htile.
  repeat split; reflexivity.
Qed.

Lemma tiler_error_is_rethrown (h3 : H3) (resolution : option Z) (e : JsError) :
  tiling h3 resolution = Thrown e ->
  generateTexasHexData h3 resolution = Thrown e /\
  generateTexasTemperatureData h3 resolution = Thrown e /\
  generateTexasCombinedData h3 resolution = Thrown e.
Proof.
  intros Htile.
  rewrite generateTexasHexData_closed, generateTexasTemperatureData_closed,
          generateTexasCombinedData_closed, Htile.
  repeat split; reflexivity.
Qed.

(** C7, as stated, fails on a boundary for which the tiler finds no cell: the
    builds return the empty field and throw nothing. *)
Lemma degenerate_boundary_returns_empty_field :
  generateTexasHexData h3_empty None = Returned [] /\
  generateTexasTemperatureData h3_empty None = Returned [] /\
  generateTexasCombinedData h3_empty None = Returned [] /\
  (forall e : JsError, generateTexasHexData h3_empty None <> Thrown e) /\
  (forall e : JsError, generateTexasTemperatureData h3_empty None <> Thrown e) /\
  (forall e : JsError, generateTexasCombinedData h3_empty None <> Thrown e).
Proof.
  repeat split; try reflexivity; intros e; discriminate.
Qed.

(* ================================================================= *)
(** ** Numeric bounds on the raw field at sample points *)

Lemma exp_nonpos_bound (a : R) :
  (a <= 0)%R -> (0 < exp a)%R /\ (exp a * ((1 - a / 2) * (1 - a / 2)) <= 1)%R.
Proof.
  intros Ha. split; [apply exp_pos |].
  assert (1 - a / 2 <= exp (- a / 2))%R as Hh.
  { destruct (Req_dec_T a 0) as [-> | Hne].
    - replace (- 0 / 2)%R with 0%R by lra. rewrite exp_0. lra.
    - pose proof (exp_ineq1 (- a / 2) ltac:(lra)). lra. }
  assert (exp a * (exp (- a / 2) * exp (- a / 2)) = 1)%R as Hprod.
  { rewrite <- !exp_plus. replace (a + (- a / 2 + - a / 2))%R with 0%R by lra.
    apply exp_0. }
  pose proof (exp_pos a) as Hpos.
  assert (0 < 1 - a / 2)%R as Hb by lra.
  assert ((1 - a / 2) * (1 - a / 2) <= exp (- a / 2) * exp (- a / 2))%R by nra.
  nra.
Qed.

Ltac bound_exps :=
  repeat match goal with
         | |- context [exp ?a] =>
             let H := fresh "Hexp" in
             let e := fresh "e" in
             assert (a <= 0)%R as H by lra;
             apply exp_nonpos_bound in H;
             destruct H as [? ?];
             set (e := exp a) in *; clearbody e
         end.

Lemma raw_houston_upper :
  (gaussian_sum 29.749 (-95.358) (supply_table ++ sink_table) <= -0.4)%R.
Proof.
  unfold supply_table, sink_table. cbn [app gaussian_sum]. unfold gaussian.
  cbv zeta.
  replace (exp (- ((29.749 - 29.749) ^ 2 / (2 * 1.4 ^ 2)
                   + (-95.358 - -95.358) ^ 2 / (2 * 1.4 ^ 2))))%R
    with 1%R.
  2:{ replace (- ((29.749 - 29.749) ^ 2 / (2 * 1.4 ^ 2)
                  + (-95.358 - -95.358) ^ 2 / (2 * 1.4 ^ 2)))%R with 0%R by lra.
      now rewrite exp_0. }
  bound_exps.
  lra.
Qed.

Lemma raw_north_bounds :
  (-0.01 <= gaussian_sum 100 (-95) (supply_table ++ sink_table) <= 0.01)%R.
Proof.
  unfold supply_table, sink_table. cbn [app gaussian_sum]. unfold gaussian.
  cbv zeta. bound_exps. lra.
Qed.

Lemma raw_south_bounds :
  (-0.01 <= gaussian_sum (-50) (-95) (supply_table ++ sink_table) <= 0.01)%R.
Proof.
  unfold supply_table, sink_table. cbn [app gaussian_sum]. unfold gaussian.
  cbv zeta. bound_exps. lra.
Qed.

(** The first value of the generator seeded with 42. *)
Lemma first_value_seed_42 :
  rand_value (seededRandom 42) 0 = Fin (1083814273 / 4294967295).
Proof. rewrite rand_value_closed. reflexivity. Qed.

(** The surplus field of a tiling of two cells whose raw scores are finite
    and increasing: the range is their difference, the first score is 0 and
    the second is at least 0.97. *)
Lemma hexField_two_cells (h3 : H3) (c1 c2 : string) (x1 x2 : R) :
  rawScore h3 c1 = Fin x1 -> rawScore h3 c2 = Fin x2 -> (x1 < x2)%R ->
  spread (map (rawScore h3) [c1; c2]) = Fin (x2 - x1) /\
  exists s2 : R,
    (0.97 <= s2 <= 1)%R /\
    map s_score (hexField h3 [c1; c2]) = [Fin 0; Fin s2].
Proof.
  intros E1 E2 Hlt.
  assert (Math.max_of (map (rawScore h3) [c1; c2]) = Fin x2) as EM.
  { cbn [map]. rewrite E1, E2. unfold Math.max_of, NegInf.
    cbn [fold_left Math.max]. f_equal. unfold Rmax. decide_reals. }
  assert (Math.min_of (map (rawScore h3) [c1; c2]) = Fin x1) as Em.
  { cbn [map]. rewrite E1, E2. unfold Math.min_of, PosInf.
    cbn [fold_left Math.min]. f_equal. unfold Rmin. decide_reals. }
  split.
  - unfold spread. rewrite EM, Em. reflexivity.
  - destruct (rand_value_in_unit (seededRandom 42) 1) as [rho [Er Hrho]].
    exists (Rmax 0 (Rmin 1 ((x2 - x1) / (x2 - x1) + (rho - 0.5) * 0.06))).
    assert ((x2 - x1) / (x2 - x1) = 1)%R as Hone by (field; lra).
    split.
    + rewrite Hone. unfold Rmax, Rmin. decide_reals.
    + unfold hexField. cbv zeta. rewrite EM, Em.
      cbn [mapi map s_score]. rewrite E1, E2, Er, first_value_seed_42.
      unfold hexScore. rewrite !jitter_Fin.
      cbn [sub neg add]. rewrite !div_Fin by lra. cbn [add].
      rewrite !clamp01_Fin.
      apply (f_equal2 cons); [| reflexivity].
      f_equal. unfold Rmax, Rmin.
      assert ((x1 + - x1) / (x2 + - x1) = 0)%R as -> by (field; lra).
      decide_reals.
Qed.

(** The temperature score is 0 far to the north and 1 far to the south. *)
Lemma tempScore_far_north (la lo : R) (r : num) :
  (50 <= la)%R -> (-107 <= lo)%R -> in_unit r ->
  tempScore (Fin la) (Fin lo) r = Fin 0.
Proof.
  intros Hla Hlo [rho [-> Hrho]]. unfold tempScore.
  rewrite tempBase_Fin, jitter_Fin. cbn [add]. rewrite clamp01_Fin.
  f_equal. unfold Rmax, Rmin. decide_reals.
Qed.

Lemma tempScore_far_south (la lo : R) (r : num) :
  (la <= 0)%R -> (lo <= -93)%R -> in_unit r ->
  tempScore (Fin la) (Fin lo) r = Fin 1.
Proof.
  intros Hla Hlo [rho [-> Hrho]]. unfold tempScore.
  rewrite tempBase_Fin, jitter_Fin. cbn [add]. rewrite clamp01_Fin.
  f_equal. unfold Rmax, Rmin. decide_reals.
Qed.

Lemma spread_two (a b : R) :
  spread [Fin a; Fin b] = Fin (Rmax a b - Rmin a b).
Proof. reflexivity. Qed.

(* ================================================================= *)
(** ** The sample tilings *)

Lemma pair_tiling (resolution : option Z) :
  tiling h3_pair resolution = Returned pair_cells.
Proof. reflexivity. Qed.

Lemma south_tiling (resolution : option Z) :
  tiling h3_pair_south resolution = Returned south_cells.
Proof. reflexivity. Qed.

Lemma pair_finite_centroids : finite_centroids h3_pair pair_cells.
Proof.
  repeat constructor; cbn; eexists; reflexivity.
Qed.

Lemma pair_raw_scores :
  exists x1 x2 : R,
    rawScore h3_pair "houston" = Fin x1 /\ rawScore h3_pair "north" = Fin x2 /\
    (x1 < x2)%R.
Proof.
  exists (gaussian_sum 29.749 (-95.358) (supply_table ++ sink_table)),
         (gaussian_sum 100 (-95) (supply_table ++ sink_table)).
  split; [apply rawScore_Fin; reflexivity |].
  split; [apply rawScore_Fin; reflexivity |].
  pose proof raw_houston_upper. pose proof raw_north_bounds. lra.
Qed.

Lemma south_raw_scores :
  exists x1 x2 : R,
    rawScore h3_pair_south "houston" = Fin x1 /\
    rawScore h3_pair_south "south" = Fin x2 /\
    (x1 < x2)%R.
Proof.
  exists (gaussian_sum 29.749 (-95.358) (supply_table ++ sink_table)),
         (gaussian_sum (-50) (-95) (supply_table ++ sink_table)).
  split; [apply rawScore_Fin; reflexivity |].
  split; [apply rawScore_Fin; reflexivity |].
  pose proof raw_houston_upper. pose proof raw_south_bounds. lra.
Qed.

Lemma pair_hex_range_nonzero :
  nonzero_range (spread (map (rawScore h3_pair) pair_cells)).
Proof.
  destruct pair_raw_scores as [x1 [x2 [E1 [E2 Hlt]]]].
  destruct (hexField_two_cells h3_pair "houston" "north" E1 E2 Hlt) as [Hs _].
  exists (x2 - x1)%R. split; [exact Hs | lra].
Qed.

Lemma pair_temp_scores :
  exists t1 : num,
    map t_score (tempField h3_pair pair_cells) = [t1; Fin 0] /\ in_unit t1.
Proof.
  eexists. split.
  - unfold tempField, pair_cells. cbn [mapi map t_score].
    apply (f_equal2 cons); [reflexivity |].
    apply (f_equal2 cons); [| reflexivity].
    change (cellToLatLng h3_pair "north") with (Fin 100, Fin (-95)).
    cbn [fst snd]. apply tempScore_far_north; [lra | lra | apply rand_value_in_unit].
  - change (cellToLatLng h3_pair "houston") with (Fin 29.749, Fin (-95.358)).
    cbn [fst snd]. apply tempScore_in_unit, rand_value_in_unit.
Qed.

Lemma pair_combined_range_nonzero :
  nonzero_range
    (spread (combineRaw (map s_score (hexField h3_pair pair_cells))
                        (map t_score (tempField h3_pair pair_cells)))).
Proof.
  destruct pair_raw_scores as [x1 [x2 [E1 [E2 Hlt]]]].
  destruct (hexField_two_cells h3_pair "houston" "north" E1 E2 Hlt)
    as [_ [s2 [Hs2 Hs]]].
  destruct pair_temp_scores as [t1 [Ht [t1r [-> Ht1]]]].
  fold pair_cells in Hs. rewrite Hs, Ht.
  unfold combineRaw. cbn [List.combine map fst snd sub neg add mul].
  rewrite spread_two. eexists. split; [reflexivity |].
  unfold Rmax, Rmin. decide_reals.
Qed.

Lemma south_temp_scores :
  exists t1 : num,
    map t_score (tempField h3_pair_south south_cells) = [t1; Fin 1] /\ in_unit t1.
Proof.
  eexists. split.
  - unfold tempField, south_cells. cbn [mapi map t_score].
    apply (f_equal2 cons); [reflexivity |].
    apply (f_equal2 cons); [| reflexivity].
    change (cellToLatLng h3_pair_south "south") with (Fin (-50), Fin (-95)).
    cbn [fst snd]. apply tempScore_far_south; [lra | lra | apply rand_value_in_unit].
  - change (cellToLatLng h3_pair_south "houston") with (Fin 29.749, Fin (-95.358)).
    cbn [fst snd]. apply tempScore_in_unit, rand_value_in_unit.
Qed.

Lemma south_combined_range_zero :
  spread (combineRaw (map s_score (hexField h3_pair_south south_cells))
                     (map t_score (tempField h3_pair_south south_cells))) = Fin 0.
Proof.
  destruct south_raw_scores as [x1 [x2 [E1 [E2 Hlt]]]].
  destruct (hexField_two_cells h3_pair_south "houston" "south" E1 E2 Hlt)
    as [_ [s2 [Hs2 Hs]]].
  destruct south_temp_scores as [t1 [Ht [t1r [-> Ht1]]]].
  fold south_cells in Hs. rewrite Hs, Ht.
  unfold combineRaw. cbn [List.combine map fst snd sub neg add mul].
  rewrite spread_two. f_equal.
  unfold Rmax, Rmin. decide_reals.
Qed.

Lemma single_hex_range_zero :
  spread (map (rawScore h3_single) ["8148bffffffffff"%string]) = Fin 0.
Proof.
  assert (rawScore h3_single "8148bffffffffff"
          = Fin (gaussian_sum 31.0 (-100.0) (supply_table ++ sink_table))) as Eraw
      by (apply rawScore_Fin; reflexivity).
  unfold spread, Math.max_of, Math.min_of, PosInf, NegInf.
  cbn [map fold_left]. rewrite Eraw. cbn [Math.max Math.min sub neg add].
  f_equal; lra.
Qed.

Lemma in_unit_not_NaN : ~ in_unit NaN.
Proof. intros [x [E _]]. discriminate. Qed.

(** C1, as stated, fails on a tiling of one cell, as the tiler returns at the
    coarsest resolutions: the centroid is finite, the surplus and the
    combined builds return one record each, and neither score is in [0,1]. *)
Lemma single_cell_scores_outside_unit_interval :
  finite_centroids h3_single ["8148bffffffffff"%string] /\
  exists (d : SurplusCell) (c : CombinedCell),
    generateTexasHexData h3_single (Some 1%Z) = Returned [d] /\
    generateTexasCombinedData h3_single (Some 1%Z) = Returned [c] /\
    ~ in_unit (s_score d) /\ ~ in_unit (c_score c).
Proof.
  split.
  { repeat constructor; cbn; eexists; reflexivity. }
  pose proof (hexField_zero_range h3_single ["8148bffffffffff"%string]
                single_hex_range_zero) as Hhex.
  pose proof (combinedField_NaN_surplus
                (tempField h3_single ["8148bffffffffff"%string]) Hhex) as Hcomb.
  rewrite generateTexasHexData_closed, generateTexasCombinedData_closed.
  change (tiling h3_single (Some 1%Z)) with (Returned ["8148bffffffffff"%string]).
  cbn [bind].
  destruct (hexField h3_single ["8148bffffffffff"%string]) as [| d [| d' ds]] eqn:Ed;
    try discriminate.
  destruct (combinedField [d] (tempField h3_single ["8148bffffffffff"%string]))
    as [| c [| c' cs]] eqn:Ec; try discriminate.
  exists d, c. repeat split.
  - apply Forall_inv in Hhex. rewrite Hhex. apply in_unit_not_NaN.
  - apply Forall_inv in Hcomb. rewrite Hcomb. apply in_unit_not_NaN.
Qed.

Lemma raw_bay_city_lower :
  (-0.2 <= gaussian_sum 28.795 (-96.048) (supply_table ++ sink_table))%R.
Proof.
  unfold supply_table, sink_table. cbn [app gaussian_sum]. unfold gaussian.
  cbv zeta.
  replace (exp (- ((28.795 - 28.795) ^ 2 / (2 * 0.45 ^ 2)
                   + (-96.048 - -96.048) ^ 2 / (2 * 0.45 ^ 2))))%R
    with 1%R.
  2:{ replace (- ((28.795 - 28.795) ^ 2 / (2 * 0.45 ^ 2)
                  + (-96.048 - -96.048) ^ 2 / (2 * 0.45 ^ 2)))%R with 0%R by lra.
      now rewrite exp_0. }
  bound_exps.
  lra.
Qed.

Lemma coast_tiling (resolution : option Z) :
  tiling h3_coast resolution = Returned coast_cells.
Proof. reflexivity. Qed.

Lemma coast_raw_scores :
  exists x1 x2 : R,
    rawScore h3_coast "houston" = Fin x1 /\ rawScore h3_coast "bay city" = Fin x2 /\
    (x1 < x2)%R.
Proof.
  exists (gaussian_sum 29.749 (-95.358) (supply_table ++ sink_table)),
         (gaussian_sum 28.795 (-96.048) (supply_table ++ sink_table)).
  split; [apply rawScore_Fin; reflexivity |].
  split; [apply rawScore_Fin; reflexivity |].
  pose proof raw_houston_upper. pose proof raw_bay_city_lower. lra.
Qed.

(** The second value of the generator seeded with 42. *)
Lemma second_value_seed_42 :
  rand_value (seededRandom 42) 1 = Fin (378494188 / 4294967295).
Proof. rewrite rand_value_closed. reflexivity. Qed.

(** C3, as stated, fails for an amplitude other than 0.06: on a tiling of
    two cells the second record's score is not the one the formula gives
    with the amplitude 0.12 and the second value of the generator seeded
    with 42. *)
Lemma surplus_jitter_amplitude_is_fixed :
  exists d1 d2 : SurplusCell,
    generateTexasHexData h3_coast None = Returned [d1; d2] /\
    s_h3Index d2 = "bay city"%string /\
    let rawField := map (rawScore h3_coast) coast_cells in
    let r := Fin (IZR (Nat.iter 2 (fun u => ((u * 1664525 + 1013904223) mod 2 ^ 32)%Z)
                                42%Z) / 4294967295) in
    s_score d2
    = clamp01 ((rawScore h3_coast "bay city" - Math.min_of rawField)
               / (Math.max_of rawField - Math.min_of rawField)
               + (r - Fin 0.5) * Fin 0.06)%js /\
    s_score d2
    <> clamp01 ((rawScore h3_coast "bay city" - Math.min_of rawField)
                / (Math.max_of rawField - Math.min_of rawField)
                + (r - Fin 0.5) * Fin 0.12)%js.
Proof.
  destruct coast_raw_scores as [x1 [x2 [E1 [E2 Hlt]]]].
  assert (Math.max_of (map (rawScore h3_coast) coast_cells) = Fin x2) as EM.
  { unfold coast_cells. cbn [map]. rewrite E1, E2. unfold Math.max_of, NegInf.
    cbn [fold_left Math.max]. f_equal. unfold Rmax. decide_reals. }
  assert (Math.min_of (map (rawScore h3_coast) coast_cells) = Fin x1) as Em.
  { unfold coast_cells. cbn [map]. rewrite E1, E2. unfold Math.min_of, PosInf.
    cbn [fold_left Math.min]. f_equal. unfold Rmin. decide_reals. }
  rewrite generateTexasHexData_closed, coast_tiling. cbn [bind].
  unfold hexField. cbv zeta. rewrite EM, Em.
  unfold coast_cells. cbn [mapi].
  eexists; eexists. split; [reflexivity |].
  split; [reflexivity |].
  cbn [s_score]. rewrite E2, second_value_seed_42.
  unfold hexScore, jitter.
  change (IZR (Nat.iter 2 (fun u => ((u * 1664525 + 1013904223) mod 2 ^ 32)%Z) 42%Z))
    with (IZR 378494188).
  split; [reflexivity |].
  cbn [sub neg add mul]. rewrite !div_Fin by lra. cbn [add].
  rewrite !clamp01_Fin.
  assert ((x2 + - x1) / (x2 + - x1) = 1)%R as -> by (field; lra).
  intros E. injection E as E. revert E.
  unfold Rmax, Rmin. decide_reals.
Qed.

(* ================================================================= *)
(** ** The theorems at sample inputs *)

Lemma influence_model_formula_witness :
  anisotropicGaussian (Fin 31.0) (Fin (-100.0)) (src 32.298 (-97.786) 1.0 0.45 0.45)
  = Fin (1.0 * exp (- ((31.0 - 32.298) ^ 2 / (2 * 0.45 ^ 2)
                       + (-100.0 - -97.786) ^ 2 / (2 * 0.45 ^ 2))))
  /\ rawScore h3_single "8148bffffffffff"
     = fold_left (fun acc source =>
                    (acc + anisotropicGaussian (Fin 31.0) (Fin (-100.0)) source)%js)
                 (SUPPLY_SOURCES ++ DEMAND_SINKS) (Fin 0)
  /\ rawScore h3_single "8148bffffffffff"
     = Fin (gaussian_sum 31.0 (-100.0) (supply_table ++ sink_table)).
Proof.
  apply (@influence_model_formula h3_single "8148bffffffffff"
           31.0 (-100.0) 32.298 (-97.786) 1.0 0.45 0.45).
  - lra.
  - lra.
  - reflexivity.
Defined.

Lemma gaussian_at_source_witness :
  anisotropicGaussian (Fin 28.795) (Fin (-96.048)) (src 28.795 (-96.048) 1.0 0.45 0.45)
  = Fin 1.0
  /\ anisotropicGaussian (Fin 32.0) (Fin (-97.0)) (src 32.0 (-97.0) 1.0 1.0 1.0)
     = Fin 1.0.
Proof.
  apply (@gaussian_at_source 28.795 (-96.048) 1.0 0.45 0.45); lra.
Defined.

Lemma opposite_sources_cancel_witness :
  (anisotropicGaussian (Fin 30.0) (Fin (-98.0)) (src 32.0 (-97.0) 0.8 1.1 0.9)
   + anisotropicGaussian (Fin 30.0) (Fin (-98.0)) (src 32.0 (-97.0) (- (0.8)) 1.1 0.9))%js
  = Fin 0.
Proof.
  apply (@opposite_sources_cancel 30.0 (-98.0) 32.0 (-97.0) 0.8 1.1 0.9); lra.
Defined.

Lemma scores_in_unit_interval_witness :
  exists (surplus : list SurplusCell) (temp : list TemperatureCell)
         (combined : list CombinedCell),
    generateTexasHexData h3_pair None = Returned surplus /\
    generateTexasTemperatureData h3_pair None = Returned temp /\
    generateTexasCombinedData h3_pair None = Returned combined /\
    length combined = 2%nat /\
    Forall (fun d => in_unit (t_score d)) temp /\
    Forall (fun d => in_unit (s_score d)) surplus /\
    Forall (fun d => in_unit (c_score d)) combined.
Proof.
  destruct (@scores_in_unit_interval h3_pair None pair_cells (pair_tiling None))
    as [surplus [temp [combined [Hs [Ht [Hc [_ [_ [Pt [Ps Pc]]]]]]]]]].
  exists surplus, temp, combined.
  assert (surplus = hexField h3_pair pair_cells) as Es.
  { rewrite generateTexasHexData_closed, pair_tiling in Hs. cbn [bind] in Hs.
    now injection Hs. }
  assert (temp = tempField h3_pair pair_cells) as Et.
  { rewrite generateTexasTemperatureData_closed, pair_tiling in Ht. cbn [bind] in Ht.
    now injection Ht. }
  assert (combined = combinedField surplus temp) as Ec.
  { rewrite generateTexasCombinedData_closed, pair_tiling in Hc. cbn [bind] in Hc.
    rewrite Es, Et. now injection Hc. }
  repeat split; try assumption.
  - rewrite Ec, Es, Et. reflexivity.
  - apply Pt, pair_finite_centroids.
  - apply Ps, pair_hex_range_nonzero.
  - apply Pc. rewrite Es, Et. apply pair_combined_range_nonzero.
Defined.

Lemma combined_field_formula_witness :
  (exists combined : list CombinedCell,
      generateTexasCombinedData h3_pair None = Returned combined /\
      map c_score combined
      = combine (map s_score (hexField h3_pair pair_cells))
                (map t_score (tempField h3_pair pair_cells))) /\
  (exists fieldA fieldB : list num,
      length fieldA = length fieldB /\ combine fieldA fieldB <> combine fieldB fieldA).
Proof.
  destruct (@combined_field_formula h3_pair None
              (hexField h3_pair pair_cells) (tempField h3_pair pair_cells))
    as [[combined [Hc [_ Hscores]]] Hnc].
  - rewrite generateTexasHexData_closed. reflexivity.
  - rewrite generateTexasTemperatureData_closed. reflexivity.
  - split; [| exact Hnc]. exists combined. split; assumption.
Defined.

Lemma combined_field_frame_witness :
  exists combined : list CombinedCell,
    generateTexasCombinedData h3_pair None = Returned combined /\
    length combined = 2%nat /\
    map c_h3Index combined = pair_cells /\
    map c_surplusMwh combined = map s_surplusMwh (hexField h3_pair pair_cells) /\
    map c_tempF combined = map t_tempF (tempField h3_pair pair_cells).
Proof.
  destruct (@combined_field_frame h3_pair None
              (hexField h3_pair pair_cells) (tempField h3_pair pair_cells))
    as [combined [Hc [Hlen [Hid [Hmwh [Htemp _]]]]]].
  - rewrite generateTexasHexData_closed. reflexivity.
  - rewrite generateTexasTemperatureData_closed. reflexivity.
  - exists combined. repeat split; assumption.
Defined.

Lemma normalizer_two_pass_jitter_witness :
  (exists d : SurplusCell,
      nth_error (fst (mapi_rand (surplusCell [Fin 0; Fin 1]
                                             (Math.min_of [Fin 0; Fin 1])
                                             (Math.max_of [Fin 0; Fin 1]
                                              - Math.min_of [Fin 0; Fin 1])%js)
                                pair_cells 0 (seededRandom 7))) 1 = Some d /\
      s_score d
      = clamp01 ((Fin 1 - Math.min_of [Fin 0; Fin 1])
                 / (Math.max_of [Fin 0; Fin 1] - Math.min_of [Fin 0; Fin 1])
                 + (Fin (3923423697 / 4294967295) - Fin 0.5) * Fin 0.06)%js) /\
  (exists data d : SurplusCell,
      generateTexasHexData h3_pair None = Returned [data; d] /\
      s_score d
      = clamp01 ((rawScore h3_pair "north"
                  - Math.min_of (map (rawScore h3_pair) pair_cells))
                 / (Math.max_of (map (rawScore h3_pair) pair_cells)
                    - Math.min_of (map (rawScore h3_pair) pair_cells))
                 + (Fin (378494188 / 4294967295) - Fin 0.5) * Fin 0.06)%js).
Proof.
  assert (- 2 ^ 31 <= 7 < 2 ^ 31)%Z as Hseed by lia.
  destruct (@normalizer_two_pass_jitter h3_pair None pair_cells [Fin 0; Fin 1] 7
              Hseed eq_refl (pair_tiling None))
    as [[_ [Hrun _]] [data [Hd [Hcells Hscores]]]].
  split.
  - exact (Hrun 1%nat (Fin 1) eq_refl).
  - destruct (Hscores 1%nat "north"%string eq_refl) as [d [Hnth Hsc]].
    destruct data as [| d0 [| d1 [| d2 data]]]; try discriminate.
    exists d0, d1. split; [exact Hd |].
    cbn [nth_error] in Hnth. injection Hnth as ->. exact Hsc.
Defined.

Lemma field_generation_deterministic_witness :
  fst (Closures.call 2 (Closures.call_n 2 1 [7; 1083814273; 42]%Z))
  = Fin (378494188 / 4294967295) /\
  fst (Closures.generateTexasHexData h3_pair None [])
  = fst (Closures.generateTexasHexData h3_pair None [7; 1083814273]%Z) /\
  fst (Closures.generateTexasTemperatureData h3_pair None [])
  = fst (Closures.generateTexasTemperatureData h3_pair None [7; 1083814273]%Z) /\
  fst (Closures.generateTexasCombinedData h3_pair None [])
  = fst (Closures.generateTexasCombinedData h3_pair None [7; 1083814273]%Z) /\
  firstn 2 (snd (Closures.generateTexasCombinedData h3_pair None [7; 1083814273]%Z))
  = [7; 1083814273]%Z.
Proof.
  assert (- 2 ^ 31 <= 42 < 2 ^ 31)%Z as Hseed by lia.
  destruct (@field_generation_deterministic
              h3_pair None 42 [Fin 0; Fin 1] (Fin 0) (Fin 1) pair_cells
              [7; 1083814273]%Z [] Hseed)
    as [Hcall [_ [[Hh [Ht Hc]] [[_ [_ Hframe]] _]]]].
  split; [exact (Hcall 1%nat) |].
  split; [now symmetry |].
  split; [now symmetry |].
  split; [now symmetry | exact Hframe].
Defined.

Lemma zero_range_yields_NaN_scores_witness :
  (exists surplus : list SurplusCell,
      generateTexasHexData h3_single None = Returned surplus /\
      length surplus = 1%nat /\
      Forall (fun d => s_score d = NaN) surplus) /\
  (exists combined : list CombinedCell,
      generateTexasCombinedData h3_pair_south None = Returned combined /\
      length combined = 2%nat /\
      Forall (fun d => c_score d = NaN) combined).
Proof.
  split.
  - destruct (@zero_range_yields_NaN_scores h3_single None ["8148bffffffffff"%string]
                eq_refl)
      as [surplus [temp [combined [Hs [_ [_ [Hhex _]]]]]]].
    exists surplus. split; [assumption |]. split.
    + rewrite generateTexasHexData_closed in Hs. injection Hs as <-. reflexivity.
    + apply Hhex, single_hex_range_zero.
  - destruct (@zero_range_yields_NaN_scores h3_pair_south None south_cells
                (south_tiling None))
      as [surplus [temp [combined [Hs [Ht [Hc [_ Hcomb]]]]]]].
    exists combined. split; [assumption |].
    rewrite generateTexasHexData_closed in Hs. injection Hs as <-.
    rewrite generateTexasTemperatureData_closed in Ht. injection Ht as <-.
    split.
    + rewrite generateTexasCombinedData_closed in Hc. injection Hc as <-. reflexivity.
    + apply Hcomb, south_combined_range_zero.
Defined.

Lemma empty_tiling_returns_empty_field_witness :
  generateTexasHexData h3_empty (Some 5%Z) = Returned [] /\
  generateTexasTemperatureData h3_empty (Some 5%Z) = Returned [] /\
  generateTexasCombinedData h3_empty (Some 5%Z) = Returned [].
Proof.
  apply (@empty_tiling_returns_empty_field h3_empty (Some 5%Z)). reflexivity.
Defined.

(* ================================================================= *)
(** ** Further properties of the seeded generator *)

Lemma ToUint32_int32 (z : Z) :
  (- 2 ^ 31 <= z < 2 ^ 31)%Z ->
  (ToUint32 z = 4294967295 <-> z = -1)%Z /\ (ToUint32 z = 0 <-> z = 0)%Z.
Proof.
  intros Hz. unfold ToUint32.
  destruct (Z.lt_ge_cases z 0) as [Hneg | Hpos].
  - assert (z mod 2 ^ 32 = z + 2 ^ 32)%Z as ->.
    { symmetry. apply Z.mod_unique with (q := (-1)%Z); [left | ]; lia. }
    lia.
  - rewrite Z.mod_small by lia. lia.
Qed.

Lemma register_after_call (seed : Z) (n : nat) :
  s (rng_after (S n) (seededRandom seed)) = lcg (s (rng_after n (seededRandom seed))).
Proof. rewrite !rng_after_register. reflexivity. Qed.

Lemma Fin_ratio_eq (u c : Z) (v : Z) :
  (0 < c)%Z -> (Fin (IZR u / IZR c) = Fin (IZR v) <-> u = v * c)%Z.
Proof.
  intros Hc. apply IZR_lt in Hc.
  split.
  - intros E. injection E as E. apply eq_IZR. rewrite mult_IZR.
    rewrite <- E. field. lra.
  - intros ->. f_equal. rewrite mult_IZR. field. lra.
Qed.

(** X1.  Whatever the seed and however many calls were made before, a call
    of the generator returns a number in the closed interval [0,1]; it
    returns exactly 1 when the register it leaves behind is -1, and exactly
    0 when that register is 0. *)
Theorem rand_value_closed_unit_interval (seed : Z) (n : nat) :
  in_unit (rand_value (seededRandom seed) n) /\
  (rand_value (seededRandom seed) n = Fin 1
   <-> s (rng_after (S n) (seededRandom seed)) = (-1)%Z) /\
  (rand_value (seededRandom seed) n = Fin 0
   <-> s (rng_after (S n) (seededRandom seed)) = 0%Z).
Proof.
  split; [apply rand_value_in_unit |].
  rewrite rand_value_closed, rng_after_register.
  set (r := Nat.iter (S n) lcg seed).
  assert (- 2 ^ 31 <= r < 2 ^ 31)%Z as Hr by (subst r; apply ToInt32_range).
  destruct (ToUint32_int32 Hr) as [H1 H0].
  split.
  - rewrite (Fin_ratio_eq (ToUint32 r) 1 (c := 4294967295)) by lia.
    rewrite <- H1. lia.
  - rewrite (Fin_ratio_eq (ToUint32 r) 0 (c := 4294967295)) by lia.
    rewrite <- H0. lia.
Qed.

(** X2.  The register is a signed 32-bit integer after every call, and when
    the seed is one too, the sum [s * 1664525 + 1013904223] formed by every
    call stays below 2^53 in magnitude, where double-precision arithmetic
    on integers is exact. *)
Theorem register_stays_int32 (seed : Z) (n : nat) :
  (- 2 ^ 31 <= seed < 2 ^ 31)%Z ->
  (- 2 ^ 31 <= s (rng_after n (seededRandom seed)) < 2 ^ 31)%Z /\
  (- 2 ^ 53 < s (rng_after n (seededRandom seed)) * 1664525 + 1013904223 < 2 ^ 53)%Z.
Proof.
  intros Hseed.
  assert (- 2 ^ 31 <= s (rng_after n (seededRandom seed)) < 2 ^ 31)%Z as Hr.
  { destruct n as [| n]; [exact Hseed |].
    rewrite register_after_call. apply ToInt32_range. }
  split; [exact Hr | lia].
Qed.

(** X3.  For a seed in the signed 32-bit range the stream is that of the
    unsigned recurrence [u <- (u * 1664525 + 1013904223) mod 2^32] started
    at the seed modulo 2^32, each state divided by 2^32 - 1: the signed
    conversion made by [&] has no effect on the values returned. *)
Theorem rand_stream_unsigned (seed : Z) (n : nat) :
  (- 2 ^ 31 <= seed < 2 ^ 31)%Z ->
  rand_value (seededRandom seed) n
  = Fin (IZR (Nat.iter (S n) ulcg (seed mod 2 ^ 32)%Z) / 4294967295).
Proof.
  intros _. apply rand_value_unsigned.
Qed.

Lemma ToInt32_eq_mod (x y : Z) :
  ToInt32 x = ToInt32 y -> (x mod 2 ^ 32 = y mod 2 ^ 32)%Z.
Proof.
  intros E. apply (f_equal ToUint32) in E.
  now rewrite !ToUint32_ToInt32 in E.
Qed.

(** X4.  The register update is injective on signed 32-bit registers: two
    different states never lead to the same next state, so the stream of
    registers never merges with another one. *)
Theorem register_update_injective (a b : Z) :
  (- 2 ^ 31 <= a < 2 ^ 31)%Z -> (- 2 ^ 31 <= b < 2 ^ 31)%Z ->
  a <> b ->
  s (snd (call (mkRng a))) <> s (snd (call (mkRng b))).
Proof.
  intros Ha Hb Hne E. apply Hne.
  rewrite !call_eq in E. cbn [snd s] in E.
  apply ToInt32_eq_mod in E.
  pose proof (Z.div_mod (a * 1664525 + 1013904223) (2 ^ 32) ltac:(lia)) as Da.
  pose proof (Z.div_mod (b * 1664525 + 1013904223) (2 ^ 32) ltac:(lia)) as Db.
  rewrite E in Da.
  set (qa := ((a * 1664525 + 1013904223) / 2 ^ 32)%Z) in *.
  set (qb := ((b * 1664525 + 1013904223) / 2 ^ 32)%Z) in *.
  set (m := ((b * 1664525 + 1013904223) mod 2 ^ 32)%Z) in *.
  clearbody qa qb m.
  assert (1664525 * 4276115653 = 1 + 2 ^ 32 * 1657219)%Z as Hinv by reflexivity.
  assert (a - b = 2 ^ 32 * ((qa - qb) * 4276115653 - (a - b) * 1657219))%Z as Hdiv
      by lia.
  lia.
Qed.

(* ================================================================= *)
(** ** Further properties of the influence model *)

Lemma square_over_double_square_nonneg (x r : R) :
  r <> 0%R -> (0 <= x ^ 2 / (2 * r ^ 2))%R.
Proof.
  intros Hr. apply Rmult_le_pos; [apply pow2_ge_0 |].
  left. apply Rinv_0_lt_compat. nra.
Qed.

Lemma square_over_double_square_zero (x r : R) :
  r <> 0%R -> (x ^ 2 / (2 * r ^ 2) = 0)%R -> x = 0%R.
Proof.
  intros Hr H.
  assert (0 < 2 * r ^ 2)%R as Hpos by nra.
  apply (f_equal (fun t => (t * (2 * r ^ 2))%R)) in H.
  unfold Rdiv in H. rewrite Rmult_assoc, Rinv_l, Rmult_1_r, Rmult_0_l in H by lra.
  nra.
Qed.

Lemma exp_nonpos_le_1 (a : R) : (a <= 0)%R -> (0 < exp a <= 1)%R.
Proof.
  intros Ha. split; [apply exp_pos |].
  destruct (Req_dec_T a 0) as [-> | Hne].
  - rewrite exp_0. lra.
  - left. rewrite <- exp_0. apply exp_increasing. lra.
Qed.

Lemma exp_nonpos_eq_1 (a : R) : (a <= 0)%R -> exp a = 1%R -> a = 0%R.
Proof.
  intros Ha H. destruct (Req_dec_T a 0) as [-> | Hne]; [reflexivity |].
  assert (exp a < exp 0)%R by (apply exp_increasing; lra).
  rewrite exp_0 in *. lra.
Qed.

Lemma gaussian_factor (pLat pLng sLat sLng w sigLat sigLng : R) :
  sigLat <> 0%R -> sigLng <> 0%R ->
  exists e : R,
    gaussian pLat pLng sLat sLng w sigLat sigLng = (w * e)%R /\
    (0 < e <= 1)%R /\
    (e = 1%R <-> pLat = sLat /\ pLng = sLng).
Proof.
  intros Hla Hlo. unfold gaussian. cbv zeta.
  set (A := ((pLat - sLat) ^ 2 / (2 * sigLat ^ 2))%R).
  set (B := ((pLng - sLng) ^ 2 / (2 * sigLng ^ 2))%R).
  pose proof (square_over_double_square_nonneg (pLat - sLat) Hla) as HA.
  pose proof (square_over_double_square_nonneg (pLng - sLng) Hlo) as HB.
  fold A in HA. fold B in HB.
  exists (exp (- (A + B))). split; [reflexivity |].
  split; [apply exp_nonpos_le_1; lra |].
  split.
  - intros H. apply exp_nonpos_eq_1 in H; [| lra].
    assert (A = 0)%R as HA0 by lra. assert (B = 0)%R as HB0 by lra.
    apply square_over_double_square_zero in HA0; [| assumption].
    apply square_over_double_square_zero in HB0; [| assumption].
    split; lra.
  - intros [-> ->]. subst A B.
    replace (- ((sLat - sLat) ^ 2 / (2 * sigLat ^ 2)
                + (sLng - sLng) ^ 2 / (2 * sigLng ^ 2)))%R with 0%R
      by (field; split; assumption).
    apply exp_0.
Qed.

(** X5.  With nonzero radii a contribution lies between 0 and the weight:
    it never has the opposite sign and never exceeds the weight in
    magnitude. *)
Theorem contribution_bounded_by_weight (pLat pLng sLat sLng w sigLat sigLng : R) :
  sigLat <> 0%R -> sigLng <> 0%R ->
  exists v : R,
    anisotropicGaussian (Fin pLat) (Fin pLng) (src sLat sLng w sigLat sigLng) = Fin v /\
    ((0 <= w)%R -> (0 <= v <= w)%R) /\
    ((w <= 0)%R -> (w <= v <= 0)%R).
Proof.
  intros Hla Hlo.
  destruct (gaussian_factor pLat pLng sLat sLng w Hla Hlo) as [e [Hg [He Hpeak]]].
  exists (w * e)%R. rewrite anisotropicGaussian_Fin, Hg by assumption.
  split; [reflexivity |].
  split; intros Hw; nra.
Qed.

(** X6.  A contribution is symmetric about its source: the points at
    offsets [(d1, d2)] and [(- d1, - d2)] from the source receive the same
    value, whatever the weight and the radii. *)
Theorem contribution_symmetric (sLat sLng d1 d2 : R) (w radLat0 radLng0 : num) :
  anisotropicGaussian (Fin (sLat + d1)) (Fin (sLng + d2))
                      (mkSource (Fin sLat) (Fin sLng) w radLat0 radLng0)
  = anisotropicGaussian (Fin (sLat - d1)) (Fin (sLng - d2))
                        (mkSource (Fin sLat) (Fin sLng) w radLat0 radLng0).
Proof.
  unfold anisotropicGaussian.
  cbn [lat lng weight radLat radLng].
  assert (forall a d : R,
             ((Fin (a + d) - Fin a) * (Fin (a + d) - Fin a))%js
             = ((Fin (a - d) - Fin a) * (Fin (a - d) - Fin a))%js) as E.
  { intros a d. cbn [sub neg add mul]. f_equal. ring. }
  now rewrite (E sLat d1), (E sLng d2).
Qed.

Lemma div_pos_zero (x : R) : (0 < x)%R -> (Fin x / Fin 0)%js = Inf false.
Proof.
  intros Hx. cbn [div]. rewrite (@Rzero_true 0) by reflexivity.
  rewrite (@Rzero_false x) by lra.
  unfold Rneg. destruct (Rlt_dec x 0); [lra | reflexivity].
Qed.

(** X7.  A zero latitude radius is not rejected: off the source's latitude
    the quotient is +Infinity and the contribution is exactly 0, on it the
    quotient is 0/0 and the contribution is NaN. *)
Theorem zero_radius_contribution (pLat pLng sLat sLng w sigLng : R) :
  sigLng <> 0%R -> pLat <> sLat ->
  anisotropicGaussian (Fin pLat) (Fin pLng) (src sLat sLng w 0 sigLng) = Fin 0 /\
  anisotropicGaussian (Fin sLat) (Fin pLng) (src sLat sLng w 0 sigLng) = NaN.
Proof.
  intros Hlo Hne. unfold anisotropicGaussian, src.
  cbn [lat lng weight radLat radLng sub neg add mul].
  replace (2 * 0 * 0)%R with 0%R by lra.
  split.
  - rewrite div_pos_zero by nra.
    rewrite div_Fin by (apply double_square_nonzero; assumption).
    cbn. f_equal. ring.
  - replace ((sLat + - sLat) * (sLat + - sLat))%R with 0%R by ring.
    rewrite div_zero_zero. reflexivity.
Qed.

Lemma gaussian_sum_bounds (pLat pLng : R) (sources : list (R * R * R * R * R)) :
  Forall radii_nonzero sources ->
  (negative_weight sources <= gaussian_sum pLat pLng sources
   <= positive_weight sources)%R.
Proof.
  induction 1 as [| t rest Ht _ IH].
  - cbn. lra.
  - destruct t as [[[[la lo] w] rla] rlo]. destruct Ht as [Hla Hlo].
    cbn [gaussian_sum positive_weight negative_weight].
    destruct (gaussian_factor pLat pLng la lo w Hla Hlo) as [e [-> [He _]]].
    pose proof (Rmax_l 0 w). pose proof (Rmax_r 0 w).
    pose proof (Rmin_l 0 w). pose proof (Rmin_r 0 w).
    split; nra.
Qed.

Lemma table_weights :
  positive_weight (supply_table ++ sink_table) = 11.76%R /\
  negative_weight (supply_table ++ sink_table) = (-8.25)%R.
Proof.
  unfold supply_table, sink_table. cbn [app positive_weight negative_weight].
  unfold Rmax, Rmin. split; decide_reals.
Qed.

(** X8.  The raw score of a cell with a finite centroid is a finite number
    between the sum of the sink weights, -8.25, and the sum of the supply
    weights, 11.76. *)
Theorem raw_score_bounded (h3 : H3) (c : string) (la lo : R) :
  cellToLatLng h3 c = (Fin la, Fin lo) ->
  exists v : R, rawScore h3 c = Fin v /\ (-8.25 <= v <= 11.76)%R.
Proof.
  intros Hc. eexists. split; [apply rawScore_Fin; exact Hc |].
  pose proof (gaussian_sum_bounds la lo all_radii_nonzero) as Hb.
  destruct table_weights as [Hp Hn]. rewrite Hp, Hn in Hb. exact Hb.
Qed.

(* ================================================================= *)
(** ** Math.round on finite numbers *)

Lemma Int_part_bounds (r : R) : (IZR (Int_part r) <= r < IZR (Int_part r) + 1)%R.
Proof. destruct (base_Int_part r). lra. Qed.

Lemma Int_part_between (lo hi : Z) (x : R) :
  (IZR lo <= x <= IZR hi)%R -> (lo <= Int_part (x + / 2) <= hi)%Z.
Proof.
  intros [Hlo Hhi]. pose proof (Int_part_bounds (x + / 2)) as Hn.
  set (n := Int_part (x + / 2)) in *.
  split.
  - destruct (Z_lt_le_dec n lo) as [Hlt | ]; [| assumption].
    assert (n + 1 <= lo)%Z as H by lia. apply IZR_le in H.
    rewrite plus_IZR in H. lra.
  - destruct (Z_lt_le_dec hi n) as [Hlt | ]; [| assumption].
    assert (hi + 1 <= n)%Z as H by lia. apply IZR_le in H.
    rewrite plus_IZR in H. lra.
Qed.

Lemma Int_part_monotone (x y : R) :
  (x <= y)%R -> (Int_part (x + / 2) <= Int_part (y + / 2))%Z.
Proof.
  intros Hxy.
  pose proof (Int_part_bounds (x + / 2)) as Hx.
  pose proof (Int_part_bounds (y + / 2)) as Hy.
  destruct (Z_lt_le_dec (Int_part (y + / 2)) (Int_part (x + / 2))) as [Hlt | ];
    [| assumption].
  assert (Int_part (y + / 2) + 1 <= Int_part (x + / 2))%Z as H by lia.
  apply IZR_le in H. rewrite plus_IZR in H. lra.
Qed.

Lemma round_between (lo hi : Z) (x : R) :
  (IZR lo <= x <= IZR hi)%R -> int_between lo hi (Math.round (Fin x)).
Proof.
  intros H. eexists. split; [reflexivity |]. now apply Int_part_between.
Qed.

(* ================================================================= *)
(** ** Further properties of the surplus and temperature fields *)

Lemma hexScore_near_normalized (m d r : R) (rnd : num) :
  d <> 0%R -> (0 <= (r - m) / d <= 1)%R -> in_unit rnd ->
  exists x : R,
    hexScore (Fin m) (Fin d) (Fin r) rnd = Fin x /\
    (0 <= x <= 1)%R /\ (-0.03 <= x - (r - m) / d <= 0.03)%R.
Proof.
  intros Hd Hv [rho [-> Hrho]]. unfold hexScore.
  rewrite jitter_Fin. cbn [sub neg add]. rewrite div_Fin by assumption.
  cbn [add]. rewrite clamp01_Fin. eexists. split; [reflexivity |].
  change ((r + - m) / d)%R with ((r - m) / d)%R.
  set (v := ((r - m) / d)%R) in *. clearbody v.
  unfold Rmax, Rmin. decide_reals.
Qed.

(** X9.  When the raw range is a nonzero number, the surplus score of every
    cell is within 0.03 of the cell's min-max normalized raw value, which
    lies in [0,1]: the jitter moves no score by more than 0.03. *)
Theorem surplus_score_within_jitter
        (h3 : H3) (resolution : option Z) (cells : list string) :
  tiling h3 resolution = Returned cells ->
  nonzero_range (spread (map (rawScore h3) cells)) ->
  exists surplus : list SurplusCell,
    generateTexasHexData h3 resolution = Returned surplus /\
    forall (i : nat) (c : string),
      nth_error cells i = Some c ->
      exists (d : SurplusCell) (x v : R),
        nth_error surplus i = Some d /\
        s_score d = Fin x /\
        ((rawScore h3 c - Math.min_of (map (rawScore h3) cells))
         / spread (map (rawScore h3) cells))%js = Fin v /\
        (0 <= v <= 1)%R /\ (-0.03 <= x - v <= 0.03)%R.
Proof.
  intros Htile [d [Hrange Hd]].
  exists (hexField h3 cells).
  rewrite generateTexasHexData_closed, Htile. cbn [bind].
  split; [reflexivity |].
  intros i c Hc.
  destruct (finite_range_bounds _ Hrange) as [m [M [Em [EM [HdM Hall]]]]].
  rewrite Forall_forall in Hall.
  destruct (Hall (rawScore h3 c)) as [r [Er Hr]].
  { apply in_map. eapply nth_error_In. exact Hc. }
  assert (0 <= (r - m) / d <= 1)%R as Hv.
  { destruct (minMax_value_in_unit (m := m) (M := M) (r := r)) as [y [Ey Hy]];
      [lra | assumption |].
    cbn [sub neg add] in Ey. rewrite div_Fin in Ey by lra.
    injection Ey as Ey. rewrite HdM.
    change ((r - m) / (M - m))%R with ((r + - m) / (M - m))%R.
    rewrite Ey. exact Hy. }
  destruct (hexScore_near_normalized (m := m) (r := r)
              (rnd := rand_value (seededRandom 42) i) Hd Hv
              (rand_value_in_unit _ _)) as [x [Ex [_ Hx]]].
  unfold hexField. cbv zeta. rewrite nth_error_mapi, Hc. cbn [option_map Nat.add].
  eexists; exists x, ((r - m) / d)%R.
  split; [reflexivity |]. cbn [s_score].
  fold (spread (map (rawScore h3) cells)). rewrite Hrange, Em, Er.
  split; [exact Ex |].
  split; [| split; assumption].
  cbn [sub neg add]. now rewrite div_Fin by assumption.
Qed.

Lemma surplusMwh_between (sc : num) :
  in_unit sc -> int_between 0 8000 (Math.round (sc * Fin 8000)%js).
Proof.
  intros [x [-> Hx]]. cbn [mul]. apply round_between. lra.
Qed.

Lemma tempF_between (sc : num) :
  in_unit sc -> int_between 65 115 (Math.round (Fin 65 + sc * Fin 50)%js).
Proof.
  intros [x [-> Hx]]. cbn [mul add]. apply round_between. lra.
Qed.

(** X10.  The display quantities are whole numbers in the advertised
    ranges: [surplusMwh] is an integer from 0 to 8000 when the raw range is
    a nonzero number, and [tempF] an integer from 65 to 115 when the
    centroids are finite. *)
Theorem display_values_in_range
        (h3 : H3) (resolution : option Z) (cells : list string) :
  tiling h3 resolution = Returned cells ->
  exists (surplus : list SurplusCell) (temp : list TemperatureCell),
    generateTexasHexData h3 resolution = Returned surplus /\
    generateTexasTemperatureData h3 resolution = Returned temp /\
    (nonzero_range (spread (map (rawScore h3) cells)) ->
     Forall (fun d => int_between 0 8000 (s_surplusMwh d)) surplus) /\
    (finite_centroids h3 cells ->
     Forall (fun d => int_between 65 115 (t_tempF d)) temp).
Proof.
  intros Htile.
  exists (hexField h3 cells), (tempField h3 cells).
  rewrite generateTexasHexData_closed, generateTexasTemperatureData_closed, Htile.
  cbn [bind]. repeat split.
  - intros Hrange. pose proof (hexField_in_unit h3 cells Hrange) as Hs.
    unfold hexField in *. cbv zeta in *.
    rewrite Forall_forall in *. intros d Hd. specialize (Hs d Hd).
    apply In_nth_error in Hd as [k Hk].
    rewrite nth_error_mapi in Hk.
    destruct (nth_error cells k) as [c |]; [| discriminate].
    cbn [option_map] in Hk. injection Hk as <-.
    cbn [s_surplusMwh s_score] in *. now apply surplusMwh_between.
  - intros Hfin. pose proof (tempField_in_unit Hfin) as Ht.
    unfold tempField in *.
    rewrite Forall_forall in *. intros d Hd. specialize (Ht d Hd).
    apply In_nth_error in Hd as [k Hk].
    rewrite nth_error_mapi in Hk.
    destruct (nth_error cells k) as [c |]; [| discriminate].
    cbn [option_map] in Hk. injection Hk as <-.
    cbn [t_tempF t_score] in *. now apply tempF_between.
Qed.

Lemma tempScore_Fin (la lo rho : R) :
  tempScore (Fin la) (Fin lo) (Fin rho)
  = Fin (Rmax 0 (Rmin 1 (0.65 * (1 - (la - 25.8) / (36.5 - 25.8))
                         + 0.20 * (1 - (lo - -106.6) / (-93.5 - -106.6))
                         + (rho - 0.5) * 0.12))).
Proof.
  unfold tempScore. rewrite tempBase_Fin, jitter_Fin. cbn [add].
  now rewrite clamp01_Fin.
Qed.

(** X11.  The temperature gradient runs the way the source says: with the
    same generator state, a cell that is neither further north nor further
    east than another gets a score, and a Fahrenheit value, at least as
    high. *)
Theorem temperature_gradient
        (h3 : H3) (c1 c2 : string) (rand : Rng) (la1 lo1 la2 lo2 : R) :
  cellToLatLng h3 c1 = (Fin la1, Fin lo1) ->
  cellToLatLng h3 c2 = (Fin la2, Fin lo2) ->
  (la1 <= la2)%R -> (lo1 <= lo2)%R ->
  exists (x1 x2 : R) (f1 f2 : Z),
    t_score (fst (temperatureCell h3 c1 rand)) = Fin x1 /\
    t_score (fst (temperatureCell h3 c2 rand)) = Fin x2 /\
    (x2 <= x1)%R /\
    t_tempF (fst (temperatureCell h3 c1 rand)) = Fin (IZR f1) /\
    t_tempF (fst (temperatureCell h3 c2 rand)) = Fin (IZR f2) /\
    (f2 <= f1)%Z.
Proof.
  intros E1 E2 Hla Hlo.
  rewrite !temperatureCell_one_call, E1, E2. cbn [fst snd t_score t_tempF].
  destruct (call_value_in_unit rand) as [rho [-> Hrho]].
  rewrite !tempScore_Fin.
  set (b1 := (0.65 * (1 - (la1 - 25.8) / (36.5 - 25.8))
              + 0.20 * (1 - (lo1 - -106.6) / (-93.5 - -106.6))
              + (rho - 0.5) * 0.12)%R).
  set (b2 := (0.65 * (1 - (la2 - 25.8) / (36.5 - 25.8))
              + 0.20 * (1 - (lo2 - -106.6) / (-93.5 - -106.6))
              + (rho - 0.5) * 0.12)%R).
  assert (b2 <= b1)%R as Hb by (subst b1 b2; lra).
  assert (Rmax 0 (Rmin 1 b2) <= Rmax 0 (Rmin 1 b1))%R as Hx.
  { clearbody b1 b2. unfold Rmax, Rmin. decide_reals. }
  do 4 eexists.
  split; [reflexivity |]. split; [reflexivity |]. split; [exact Hx |].
  cbn [mul add Math.round].
  split; [reflexivity |]. split; [reflexivity |].
  apply Int_part_monotone. lra.
Qed.


(* ================================================================= *)
(** ** Further properties of the combined field and of the builders *)

Lemma min_Fin_cases (a x : num) (m : R) :
  Math.min a x = Fin m -> a = Fin m \/ x = Fin m.
Proof.
  destruct a as [| [|] | u]; destruct x as [| [|] | v]; cbn [Math.min];
    intros H; try discriminate; auto.
  injection H as <-. unfold Rmin. destruct (Rle_dec u v); auto.
Qed.

Lemma max_Fin_cases (a x : num) (M : R) :
  Math.max a x = Fin M -> a = Fin M \/ x = Fin M.
Proof.
  destruct a as [| [|] | u]; destruct x as [| [|] | v]; cbn [Math.max];
    intros H; try discriminate; auto.
  injection H as <-. unfold Rmax. destruct (Rle_dec u v); auto.
Qed.

Lemma fold_min_attained (xs : list num) (a : num) (m : R) :
  fold_left Math.min xs a = Fin m -> a = Fin m \/ In (Fin m) xs.
Proof.
  revert a. induction xs as [| x xs IH]; intros a H; cbn [fold_left] in H.
  - now left.
  - destruct (IH _ H) as [Hax | Hin]; [| right; now right].
    destruct (min_Fin_cases _ _ Hax) as [-> | ->]; [now left | right; now left].
Qed.

Lemma fold_max_attained (xs : list num) (a : num) (M : R) :
  fold_left Math.max xs a = Fin M -> a = Fin M \/ In (Fin M) xs.
Proof.
  revert a. induction xs as [| x xs IH]; intros a H; cbn [fold_left] in H.
  - now left.
  - destruct (IH _ H) as [Hax | Hin]; [| right; now right].
    destruct (max_Fin_cases _ _ Hax) as [-> | ->]; [now left | right; now left].
Qed.

(** A finite minimum or maximum of a field is one of its values. *)
Lemma extrema_attained (xs : list num) (m M : R) :
  Math.min_of xs = Fin m -> Math.max_of xs = Fin M ->
  In (Fin m) xs /\ In (Fin M) xs.
Proof.
  unfold Math.min_of, Math.max_of, PosInf, NegInf. intros Hm HM.
  destruct (fold_min_attained _ _ Hm) as [E | Hin]; [discriminate |].
  destruct (fold_max_attained _ _ HM) as [E | Hin']; [discriminate |].
  now split.
Qed.

Lemma combinedField_score_of_raw
      (surplus : list SurplusCell) (temp : list TemperatureCell) (x : num) :
  In x (combineRaw (map s_score surplus) (map t_score temp)) ->
  exists d : CombinedCell,
    In d (combinedField surplus temp) /\
    c_score d
    = ((x - Math.min_of (combineRaw (map s_score surplus) (map t_score temp)))
       / spread (combineRaw (map s_score surplus) (map t_score temp)))%js.
Proof.
  intros Hx. rewrite combineRaw_cells in Hx.
  apply in_map_iff in Hx as [[s0 t0] [Ex Hin]]. cbn [fst snd] in Ex.
  unfold combinedField. cbv zeta.
  eexists. split.
  - apply in_map_iff. exists (s0, t0). split; [reflexivity | exact Hin].
  - cbn [c_score]. now rewrite Ex.
Qed.

(** X13.  When the combined raw range is a nonzero number, the combined
    field reaches both ends of the scale: some record has score exactly 0
    and some record has score exactly 1. *)
Theorem combined_field_reaches_both_ends
        (h3 : H3) (resolution : option Z)
        (surplus : list SurplusCell) (temp : list TemperatureCell) :
  generateTexasHexData h3 resolution = Returned surplus ->
  generateTexasTemperatureData h3 resolution = Returned temp ->
  nonzero_range (spread (combineRaw (map s_score surplus) (map t_score temp))) ->
  exists combined : list CombinedCell,
    generateTexasCombinedData h3 resolution = Returned combined /\
    (exists d, In d combined /\ c_score d = Fin 0) /\
    (exists d, In d combined /\ c_score d = Fin 1).
Proof.
  intros Hs Ht [d [Hrange Hd]].
  destruct (builders_inv _ _ Hs Ht) as [cells [Htile [-> ->]]].
  exists (combinedField (hexField h3 cells) (tempField h3 cells)).
  rewrite generateTexasCombinedData_closed, Htile. cbn [bind].
  split; [reflexivity |].
  destruct (finite_range_bounds _ Hrange) as [m [M [Em [EM [HdM _]]]]].
  destruct (extrema_attained _ Em EM) as [Hm HM].
  split.
  - destruct (combinedField_score_of_raw _ _ _ Hm) as [rec [Hin Hsc]].
    exists rec. split; [exact Hin |].
    rewrite Hsc, Hrange, Em. cbn [sub neg add]. rewrite div_Fin by assumption.
    f_equal. field. assumption.
  - destruct (combinedField_score_of_raw _ _ _ HM) as [rec [Hin Hsc]].
    exists rec. split; [exact Hin |].
    rewrite Hsc, Hrange, Em. cbn [sub neg add]. rewrite div_Fin by assumption.
    f_equal. rewrite HdM. field. lra.
Qed.

Lemma tempField_cells (h3 : H3) (cells : list string) :
  map t_h3Index (tempField h3 cells) = cells.
Proof.
  unfold tempField. rewrite map_mapi. cbn [t_h3Index].
  rewrite mapi_const_index. apply map_id.
Qed.

Lemma combinedField_cells (h3 : H3) (cells : list string) :
  map c_h3Index (combinedField (hexField h3 cells) (tempField h3 cells)) = cells.
Proof.
  unfold combinedField. cbv zeta. rewrite map_map.
  rewrite <- (hexField_cells h3 cells) at 3.
  rewrite <- (map_fst_combine s_h3Index (hexField h3 cells) (tempField h3 cells))
    by now rewrite hexField_length, tempField_length.
  apply map_ext. now intros [s0 t0].
Qed.

(** X14.  When the tiler throws, each of the three builds throws the same
    error.  When it returns, the temperature build returns one record per
    cell in the tiler's order; a surplus or combined field that is returned
    has one record per cell in the tiler's order as well, and the combined
    build does not fail on reading [temp[i]]. *)
Theorem builders_follow_tiler (h3 : H3) (resolution : option Z) :
  (forall e : JsError,
      tiling h3 resolution = Thrown e ->
      generateTexasHexData h3 resolution = Thrown e /\
      generateTexasTemperatureData h3 resolution = Thrown e /\
      generateTexasCombinedData h3 resolution = Thrown e) /\
  (forall cells : list string,
      tiling h3 resolution = Returned cells ->
      (exists temp : list TemperatureCell,
          generateTexasTemperatureData h3 resolution = Returned temp /\
          map t_h3Index temp = cells) /\
      (forall surplus : list SurplusCell,
          generateTexasHexData h3 resolution = Returned surplus ->
          map s_h3Index surplus = cells) /\
      (forall combined : list CombinedCell,
          generateTexasCombinedData h3 resolution = Returned combined ->
          map c_h3Index combined = cells) /\
      generateTexasCombinedData h3 resolution <> Thrown TypeError).
Proof.
  rewrite generateTexasHexData_closed, generateTexasTemperatureData_closed,
          generateTexasCombinedData_closed.
  split.
  - intros e ->. repeat split; reflexivity.
  - intros cells ->. cbn [bind]. split; [| split; [| split]].
    + exists (tempField h3 cells). split; [reflexivity | apply tempField_cells].
    + intros surplus E. injection E as <-. apply hexField_cells.
    + intros combined E. injection E as <-. apply combinedField_cells.
    + discriminate.
Qed.

(* ================================================================= *)
(** ** The colour ramps *)

Lemma int_between_weaken (lo hi lo' hi' : Z) (a : num) :
  (lo' <= lo)%Z -> (hi <= hi')%Z -> int_between lo hi a -> int_between lo' hi' a.
Proof. intros Hlo Hhi [k [-> Hk]]. exists k. split; [reflexivity | lia]. Qed.

Lemma int_between_255 : int_between 255 255 (Fin 255).
Proof. exists 255%Z. split; [reflexivity | lia]. Qed.

(** X15.  For a score in [0,1] every channel of the three colour ramps is
    an integer inside the range the source gives for it, hence from 0 to
    255: red 0-20, green 180-255, blue 140-220, alpha 30-230 for the surplus
    layer; red 255, green 30-180, blue 0-20, alpha 25-235 for the temperature
    layer; red 80-210, green 0-20, blue 180-255, alpha 25-240 for the
    combined layer. *)
Theorem colour_channels_in_range (score : num) :
  in_unit score ->
  (int_between 0 20 (red (surplusColor score)) /\
   int_between 180 255 (green (surplusColor score)) /\
   int_between 140 220 (blue (surplusColor score)) /\
   int_between 30 230 (alpha (surplusColor score))) /\
  (int_between 255 255 (red (temperatureColor score)) /\
   int_between 30 180 (green (temperatureColor score)) /\
   int_between 0 20 (blue (temperatureColor score)) /\
   int_between 25 235 (alpha (temperatureColor score))) /\
  (int_between 80 210 (red (combinedColor score)) /\
   int_between 0 20 (green (combinedColor score)) /\
   int_between 180 255 (blue (combinedColor score)) /\
   int_between 25 240 (alpha (combinedColor score))) /\
  rgba (surplusColor score) /\ rgba (temperatureColor score) /\
  rgba (combinedColor score).
Proof.
  intros [x [-> Hx]].
  assert (int_between 0 20 (red (surplusColor (Fin x))) /\
          int_between 180 255 (green (surplusColor (Fin x))) /\
          int_between 140 220 (blue (surplusColor (Fin x))) /\
          int_between 30 230 (alpha (surplusColor (Fin x)))) as Hs.
  { unfold surplusColor, red, green, blue, alpha.
    cbn [fst snd mul add sub neg].
    repeat split; apply round_between; lra. }
  assert (int_between 255 255 (red (temperatureColor (Fin x))) /\
          int_between 30 180 (green (temperatureColor (Fin x))) /\
          int_between 0 20 (blue (temperatureColor (Fin x))) /\
          int_between 25 235 (alpha (temperatureColor (Fin x)))) as Ht.
  { unfold temperatureColor, red, green, blue, alpha.
    cbn [fst snd mul add sub neg].
    split; [apply int_between_255 |].
    repeat split; apply round_between; lra. }
  assert (int_between 80 210 (red (combinedColor (Fin x))) /\
          int_between 0 20 (green (combinedColor (Fin x))) /\
          int_between 180 255 (blue (combinedColor (Fin x))) /\
          int_between 25 240 (alpha (combinedColor (Fin x)))) as Hc.
  { unfold combinedColor, red, green, blue, alpha.
    cbn [fst snd mul add sub neg].
    repeat split; apply round_between; lra. }
  split; [exact Hs |]. split; [exact Ht |]. split; [exact Hc |].
  destruct Hs as [S1 [S2 [S3 S4]]]. destruct Ht as [T1 [T2 [T3 T4]]].
  destruct Hc as [C1 [C2 [C3 C4]]].
  unfold rgba.
  repeat split; eapply int_between_weaken; try eassumption; lia.
Qed.

Lemma rgba_of_unit (score : num) :
  in_unit score ->
  rgba (surplusColor score) /\ rgba (temperatureColor score) /\
  rgba (combinedColor score).
Proof.
  intros [x [-> Hx]].
  unfold rgba, surplusColor, temperatureColor, combinedColor, red, green, blue, alpha.
  cbn [fst snd mul add sub neg].
  repeat split;
    try (apply (int_between_weaken (lo := 255) (hi := 255));
         [lia | lia | apply int_between_255]);
    apply round_between; lra.
Qed.

(** X16.  Opacity follows the score: for two finite scores, the alpha
    channel of the higher one is at least that of the lower one, in each of
    the three ramps. *)
Theorem alpha_monotone (x y : R) :
  (x <= y)%R ->
  exists a1 b1 a2 b2 a3 b3 : Z,
    alpha (surplusColor (Fin x)) = Fin (IZR a1) /\
    alpha (surplusColor (Fin y)) = Fin (IZR b1) /\ (a1 <= b1)%Z /\
    alpha (temperatureColor (Fin x)) = Fin (IZR a2) /\
    alpha (temperatureColor (Fin y)) = Fin (IZR b2) /\ (a2 <= b2)%Z /\
    alpha (combinedColor (Fin x)) = Fin (IZR a3) /\
    alpha (combinedColor (Fin y)) = Fin (IZR b3) /\ (a3 <= b3)%Z.
Proof.
  intros Hxy.
  unfold surplusColor, temperatureColor, combinedColor, alpha.
  cbn [snd mul add Math.round].
  do 6 eexists.
  repeat split; try reflexivity; apply Int_part_monotone; lra.
Qed.

Lemma Forall_rgba {A : Type} (score : A -> num) (colour : num -> Color) (l : list A) :
  (forall sc, in_unit sc -> rgba (colour sc)) ->
  Forall (fun d => in_unit (score d)) l ->
  Forall (fun d => rgba (colour (score d))) l.
Proof.
  intros Hc H. eapply Forall_impl; [| exact H]. intros d Hd. now apply Hc.
Qed.

(** X17.  On valid inputs every record handed to the map layer gets a
    proper colour: all four channels of [surplusColor], [temperatureColor]
    and [combinedColor] applied to the emitted scores are integers from 0 to
    255. *)
Theorem emitted_colours_valid
        (h3 : H3) (resolution : option Z) (cells : list string) :
  tiling h3 resolution = Returned cells ->
  exists (surplus : list SurplusCell) (temp : list TemperatureCell)
         (combined : list CombinedCell),
    generateTexasHexData h3 resolution = Returned surplus /\
    generateTexasTemperatureData h3 resolution = Returned temp /\
    generateTexasCombinedData h3 resolution = Returned combined /\
    (nonzero_range (spread (map (rawScore h3) cells)) ->
     Forall (fun d => rgba (surplusColor (s_score d))) surplus) /\
    (finite_centroids h3 cells ->
     Forall (fun d => rgba (temperatureColor (t_score d))) temp) /\
    (nonzero_range (spread (combineRaw (map s_score surplus) (map t_score temp))) ->
     Forall (fun d => rgba (combinedColor (c_score d))) combined).
Proof.
  intros Htile.
  exists (hexField h3 cells), (tempField h3 cells),
         (combinedField (hexField h3 cells) (tempField h3 cells)).
  rewrite generateTexasHexData_closed, generateTexasTemperatureData_closed,
          generateTexasCombinedData_closed, Htile.
  cbn [bind]. repeat split.
  - intros H. apply Forall_rgba; [apply rgba_of_unit | now apply hexField_in_unit].
  - intros H. apply Forall_rgba; [apply rgba_of_unit | now apply tempField_in_unit].
  - intros H. apply Forall_rgba; [apply rgba_of_unit | now apply combinedField_in_unit].
Qed.

(** X18.  A zero raw range reaches the map as colours without a value: the
    four channels of [surplusColor] on every surplus record, and of
    [combinedColor] on every combined record, are NaN. *)
Theorem zero_range_colours_are_NaN
        (h3 : H3) (resolution : option Z) (cells : list string) :
  tiling h3 resolution = Returned cells ->
  spread (map (rawScore h3) cells) = Fin 0 ->
  exists (surplus : list SurplusCell) (combined : list CombinedCell),
    generateTexasHexData h3 resolution = Returned surplus /\
    generateTexasCombinedData h3 resolution = Returned combined /\
    length surplus = length cells /\
    Forall (fun d => surplusColor (s_score d) = (NaN, NaN, NaN, NaN)) surplus /\
    Forall (fun d => combinedColor (c_score d) = (NaN, NaN, NaN, NaN)) combined.
Proof.
  intros Htile Hrange.
  exists (hexField h3 cells), (combinedField (hexField h3 cells) (tempField h3 cells)).
  rewrite generateTexasHexData_closed, generateTexasCombinedData_closed, Htile.
  cbn [bind].
  pose proof (hexField_zero_range h3 cells Hrange) as Hs.
  pose proof (combinedField_NaN_surplus (tempField h3 cells) Hs) as Hc.
  repeat split; try reflexivity.
  - apply hexField_length.
  - eapply Forall_impl; [| exact Hs]. intros d Hd. cbv beta in Hd. now rewrite Hd.
  - eapply Forall_impl; [| exact Hc]. intros d Hd. cbv beta in Hd. now rewrite Hd.
Qed.

(* ================================================================= *)
(** ** The range of a raw field *)

(** X19.  The range of an empty field is -Infinity, and a range that is a
    number is never negative. *)
Theorem range_sign (raw : list num) (d : R) :
  spread raw = Fin d -> (0 <= d)%R /\ raw <> [] /\ spread [] = NegInf.
Proof.
  intros H.
  destruct (finite_range_bounds _ H) as [m [M [Em [EM [HdM Hall]]]]].
  destruct raw as [| x xs]; [discriminate |].
  inversion Hall as [| ? ? [r [_ Hr]] _]; subst.
  repeat split; [lra | discriminate].
Qed.

(* ================================================================= *)
(** ** The order of the combined scores *)

Lemma nth_error_combine {A B : Type} (xs : list A) (ys : list B) (i : nat) (x : A) (y : B) :
  nth_error xs i = Some x -> nth_error ys i = Some y ->
  nth_error (List.combine xs ys) i = Some (x, y).
Proof.
  revert ys i. induction xs as [| a xs IH]; intros [| b ys] [| i] Hx Hy;
    try discriminate.
  - cbn in *. congruence.
  - cbn in *. now apply IH.
Qed.

(** X21.  The combined score keeps the order of the raw product
    [surplus.score * (1 - temp.score)]: when the combined raw range is a
    nonzero number, a cell whose raw product is not larger than another's
    does not get a larger combined score. *)
Theorem combined_score_preserves_ranking
        (h3 : H3) (resolution : option Z)
        (surplus : list SurplusCell) (temp : list TemperatureCell) :
  generateTexasHexData h3 resolution = Returned surplus ->
  generateTexasTemperatureData h3 resolution = Returned temp ->
  nonzero_range (spread (combineRaw (map s_score surplus) (map t_score temp))) ->
  exists combined : list CombinedCell,
    generateTexasCombinedData h3 resolution = Returned combined /\
    forall (i j : nat) (si sj : SurplusCell) (ti tj : TemperatureCell),
      nth_error surplus i = Some si -> nth_error temp i = Some ti ->
      nth_error surplus j = Some sj -> nth_error temp j = Some tj ->
      exists (di dj : CombinedCell) (ri rj xi xj : R),
        nth_error combined i = Some di /\ nth_error combined j = Some dj /\
        (s_score si * (Fin 1 - t_score ti))%js = Fin ri /\
        (s_score sj * (Fin 1 - t_score tj))%js = Fin rj /\
        c_score di = Fin xi /\ c_score dj = Fin xj /\
        ((ri <= rj)%R -> (xi <= xj)%R).
Proof.
  intros Hs Ht [d [Hrange Hd]].
  destruct (builders_inv _ _ Hs Ht) as [cells [Htile [Es Et]]].
  exists (combinedField surplus temp).
  rewrite generateTexasCombinedData_closed, Htile. cbn [bind]. rewrite <- Es, <- Et.
  split; [reflexivity |].
  intros i j si sj ti tj Hsi Hti Hsj Htj.
  destruct (finite_range_bounds _ Hrange) as [m [M [Em [EM [HdM Hall]]]]].
  rewrite Forall_forall in Hall.
  pose proof (nth_error_combine _ _ _ Hsi Hti) as Hi.
  pose proof (nth_error_combine _ _ _ Hsj Htj) as Hj.
  assert (forall (s0 : SurplusCell) (t0 : TemperatureCell),
             In (s0, t0) (List.combine surplus temp) ->
             exists r : R, (s_score s0 * (Fin 1 - t_score t0))%js = Fin r /\
                           (m <= r <= M)%R) as Hraw.
  { intros s0 t0 Hin. apply Hall. rewrite combineRaw_cells.
    apply (in_map (fun st => (s_score (fst st) * (Fin 1 - t_score (snd st)))%js)
                  _ (s0, t0) Hin). }
  destruct (Hraw si ti (nth_error_In _ _ Hi)) as [ri [Eri Hri]].
  destruct (Hraw sj tj (nth_error_In _ _ Hj)) as [rj [Erj Hrj]].
  assert (0 < d)%R as Hpos by lra.
  unfold combinedField. cbv zeta.
  fold (spread (combineRaw (map s_score surplus) (map t_score temp))).
  rewrite Hrange, Em.
  do 2 eexists. exists ri, rj, ((ri - m) / d)%R, ((rj - m) / d)%R.
  rewrite !nth_error_map, Hi, Hj. cbn [option_map c_score].
  rewrite Eri, Erj. cbn [sub neg add]. rewrite !div_Fin by assumption.
  repeat split; try reflexivity.
  intros H. unfold Rdiv. apply Rmult_le_compat_r; [| lra].
  left. now apply Rinv_0_lt_compat.
Qed.

Lemma combined_score_preserves_ranking_witness :
  exists combined : list CombinedCell,
    generateTexasCombinedData h3_pair None = Returned combined /\
    exists (di dj : CombinedCell) (xi xj : R),
      nth_error combined 0 = Some di /\ nth_error combined 1 = Some dj /\
      c_score di = Fin xi /\ c_score dj = Fin xj.
Proof.
  destruct (@combined_score_preserves_ranking h3_pair None
              (hexField h3_pair pair_cells) (tempField h3_pair pair_cells))
    as [combined [Hc Hall]].
  - rewrite generateTexasHexData_closed. reflexivity.
  - rewrite generateTexasTemperatureData_closed. reflexivity.
  - apply pair_combined_range_nonzero.
  - exists combined. split; [exact Hc |].
    destruct (Hall 0%nat 1%nat _ _ _ _ eq_refl eq_refl eq_refl eq_refl)
      as [di [dj [ri [rj [xi [xj [Hi [Hj [_ [_ [Hxi [Hxj _]]]]]]]]]]]].
    exists di, dj, xi, xj. repeat split; assumption.
Defined.

(* ================================================================= *)
(** ** The further properties at sample inputs *)

Lemma rand_stream_unsigned_witness :
  rand_value (seededRandom 42) 0 = Fin (IZR 1083814273 / 4294967295) /\
  rand_value (seededRandom (-1)) 0 = Fin (IZR 1012239698 / 4294967295).
Proof.
  split.
  - apply (@rand_stream_unsigned 42 0). lia.
  - apply (@rand_stream_unsigned (-1) 0). lia.
Defined.

Lemma register_stays_int32_witness :
  (- 2 ^ 31 <= s (rng_after 3 (seededRandom 42)) < 2 ^ 31)%Z /\
  (- 2 ^ 53 < s (rng_after 3 (seededRandom 42)) * 1664525 + 1013904223 < 2 ^ 53)%Z.
Proof.
  apply (@register_stays_int32 42 3). lia.
Defined.

Lemma register_update_injective_witness :
  s (snd (call (mkRng 42))) <> s (snd (call (mkRng 99))).
Proof.
  apply (@register_update_injective 42 99); lia.
Defined.

Lemma contribution_bounded_by_weight_witness :
  exists v : R,
    anisotropicGaussian (Fin 31.0) (Fin (-100.0)) (src 32.264 (-100.344) 0.95 2.5 1.2)
    = Fin v /\
    (0 <= v <= 0.95)%R.
Proof.
  destruct (@contribution_bounded_by_weight 31.0 (-100.0) 32.264 (-100.344) 0.95 2.5 1.2)
    as [v [Hv [Hpos _]]]; [lra | lra |].
  exists v. split; [exact Hv | apply Hpos; lra].
Defined.

Lemma zero_radius_contribution_witness :
  anisotropicGaussian (Fin 31.0) (Fin (-100.0)) (src 32.0 (-97.0) 1.0 0 1.0) = Fin 0 /\
  anisotropicGaussian (Fin 32.0) (Fin (-100.0)) (src 32.0 (-97.0) 1.0 0 1.0) = NaN.
Proof.
  apply (@zero_radius_contribution 31.0 (-100.0) 32.0 (-97.0) 1.0 1.0); lra.
Defined.

Lemma raw_score_bounded_witness :
  exists v : R,
    rawScore h3_single "8148bffffffffff" = Fin v /\ (-8.25 <= v <= 11.76)%R.
Proof.
  apply (@raw_score_bounded h3_single "8148bffffffffff" 31.0 (-100.0)). reflexivity.
Defined.

Lemma surplus_score_within_jitter_witness :
  exists surplus : list SurplusCell,
    generateTexasHexData h3_pair None = Returned surplus /\
    exists (d : SurplusCell) (x v : R),
      nth_error surplus 1 = Some d /\
      s_score d = Fin x /\
      (0 <= v <= 1)%R /\ (-0.03 <= x - v <= 0.03)%R.
Proof.
  destruct (@surplus_score_within_jitter h3_pair None pair_cells
              (pair_tiling None) pair_hex_range_nonzero)
    as [surplus [Hs Hall]].
  exists surplus. split; [exact Hs |].
  destruct (Hall 1%nat "north"%string eq_refl) as [d [x [v [Hd [Hx [_ [Hv Hxv]]]]]]].
  exists d, x, v.
  split; [exact Hd |]. split; [exact Hx |]. split; [exact Hv | exact Hxv].
Defined.

Lemma display_values_in_range_witness :
  exists (surplus : list SurplusCell) (temp : list TemperatureCell),
    generateTexasHexData h3_pair None = Returned surplus /\
    generateTexasTemperatureData h3_pair None = Returned temp /\
    Forall (fun d => int_between 0 8000 (s_surplusMwh d)) surplus /\
    Forall (fun d => int_between 65 115 (t_tempF d)) temp.
Proof.
  destruct (@display_values_in_range h3_pair None pair_cells (pair_tiling None))
    as [surplus [temp [Hs [Ht [Ps Pt]]]]].
  exists surplus, temp. repeat split; try assumption.
  - apply Ps, pair_hex_range_nonzero.
  - apply Pt, pair_finite_centroids.
Defined.

Lemma temperature_gradient_witness :
  exists (x1 x2 : R) (f1 f2 : Z),
    t_score (fst (temperatureCell h3_pair "houston" (seededRandom 99))) = Fin x1 /\
    t_score (fst (temperatureCell h3_pair "north" (seededRandom 99))) = Fin x2 /\
    (x2 <= x1)%R /\
    t_tempF (fst (temperatureCell h3_pair "houston" (seededRandom 99))) = Fin (IZR f1) /\
    t_tempF (fst (temperatureCell h3_pair "north" (seededRandom 99))) = Fin (IZR f2) /\
    (f2 <= f1)%Z.
Proof.
  apply (@temperature_gradient h3_pair "houston" "north" (seededRandom 99)
           29.749 (-95.358) 100 (-95)); try reflexivity; lra.
Defined.



Lemma builders_follow_tiler_witness :
  (exists temp : list TemperatureCell,
      generateTexasTemperatureData h3_pair None = Returned temp /\
      map t_h3Index temp = pair_cells) /\
  map s_h3Index (hexField h3_pair pair_cells) = pair_cells /\
  generateTexasCombinedData h3_pair None <> Thrown TypeError.
Proof.
  destruct (@builders_follow_tiler h3_pair None) as [_ H].
  destruct (H pair_cells (pair_tiling None)) as [Ht [Hs [_ Hc]]].
  split; [exact Ht |]. split; [| exact Hc].
  apply Hs. rewrite generateTexasHexData_closed. reflexivity.
Defined.

Lemma combined_field_reaches_both_ends_witness :
  exists combined : list CombinedCell,
    generateTexasCombinedData h3_pair None = Returned combined /\
    (exists d, In d combined /\ c_score d = Fin 0) /\
    (exists d, In d combined /\ c_score d = Fin 1).
Proof.
  apply (@combined_field_reaches_both_ends h3_pair None
           (hexField h3_pair pair_cells) (tempField h3_pair pair_cells)).
  - rewrite generateTexasHexData_closed. reflexivity.
  - rewrite generateTexasTemperatureData_closed. reflexivity.
  - apply pair_combined_range_nonzero.
Defined.

Lemma half_in_unit : in_unit (Fin 0.5).
Proof. exists 0.5%R. split; [reflexivity | lra]. Qed.

Lemma colour_channels_in_range_witness :
  rgba (surplusColor (Fin 0.5)) /\ rgba (temperatureColor (Fin 0.5)) /\
  rgba (combinedColor (Fin 0.5)).
Proof.
  destruct (@colour_channels_in_range (Fin 0.5) half_in_unit) as [_ [_ [_ H]]].
  exact H.
Defined.

Lemma alpha_monotone_witness :
  exists a1 b1 a2 b2 a3 b3 : Z,
    alpha (surplusColor (Fin 0.2)) = Fin (IZR a1) /\
    alpha (surplusColor (Fin 0.7)) = Fin (IZR b1) /\ (a1 <= b1)%Z /\
    alpha (temperatureColor (Fin 0.2)) = Fin (IZR a2) /\
    alpha (temperatureColor (Fin 0.7)) = Fin (IZR b2) /\ (a2 <= b2)%Z /\
    alpha (combinedColor (Fin 0.2)) = Fin (IZR a3) /\
    alpha (combinedColor (Fin 0.7)) = Fin (IZR b3) /\ (a3 <= b3)%Z.
Proof.
  apply (@alpha_monotone 0.2 0.7). lra.
Defined.

Lemma emitted_colours_valid_witness :
  exists (surplus : list SurplusCell) (temp : list TemperatureCell)
         (combined : list CombinedCell),
    generateTexasHexData h3_pair None = Returned surplus /\
    generateTexasTemperatureData h3_pair None = Returned temp /\
    generateTexasCombinedData h3_pair None = Returned combined /\
    Forall (fun d => rgba (surplusColor (s_score d))) surplus /\
    Forall (fun d => rgba (temperatureColor (t_score d))) temp /\
    Forall (fun d => rgba (combinedColor (c_score d))) combined.
Proof.
  destruct (@emitted_colours_valid h3_pair None pair_cells (pair_tiling None))
    as [surplus [temp [combined [Hs [Ht [Hc [Ps [Pt Pc]]]]]]]].
  exists surplus, temp, combined.
  assert (surplus = hexField h3_pair pair_cells) as Es.
  { rewrite generateTexasHexData_closed, pair_tiling in Hs. cbn [bind] in Hs.
    now injection Hs. }
  assert (temp = tempField h3_pair pair_cells) as Et.
  { rewrite generateTexasTemperatureData_closed, pair_tiling in Ht. cbn [bind] in Ht.
    now injection Ht. }
  repeat split; try assumption.
  - apply Ps, pair_hex_range_nonzero.
  - apply Pt, pair_finite_centroids.
  - apply Pc. rewrite Es, Et. apply pair_combined_range_nonzero.
Defined.

Lemma zero_range_colours_are_NaN_witness :
  exists (surplus : list SurplusCell) (combined : list CombinedCell),
    generateTexasHexData h3_single None = Returned surplus /\
    generateTexasCombinedData h3_single None = Returned combined /\
    length surplus = 1%nat /\
    Forall (fun d => surplusColor (s_score d) = (NaN, NaN, NaN, NaN)) surplus /\
    Forall (fun d => combinedColor (c_score d) = (NaN, NaN, NaN, NaN)) combined.
Proof.
  apply (@zero_range_colours_are_NaN h3_single None ["8148bffffffffff"%string]).
  - reflexivity.
  - apply single_hex_range_zero.
Defined.

Lemma spread_one_three : spread [Fin 1; Fin 3] = Fin 2.
Proof.
  rewrite spread_two. f_equal. unfold Rmax, Rmin. decide_reals.
Qed.

Lemma range_sign_witness : (0 <= 2)%R /\ [Fin 1; Fin 3] <> [] /\ spread [] = NegInf.
Proof.
  apply (@range_sign [Fin 1; Fin 3] 2). apply spread_one_three.
Defined.

